(** * snakefmt.parser.syntax: block headers, the keyword-block tracker and
      the parameter-list parser

    A shallow embedding of [src/snakefmt/parser/syntax.py].  Python objects
    become records that are passed and returned explicitly, the shared token
    iterator becomes the list of the tokens still to be read, and a raised
    exception becomes the [Err] branch of [result].

    Strings are sequences of code points below 256; integers are [Z]. *)

From Stdlib Require Import ZArith String Ascii DecimalString.
From stdpp Require Import base gmap strings list.

Local Open Scope string_scope.
Local Open Scope list_scope.
Local Open Scope Z_scope.

(** ** Python strings *)

(** [str.isspace] on one character, for the code points below 256: the
    ASCII controls 9-13 and 28-31, the space, NEL (0x85) and NBSP (0xA0). *)
Definition char_isspace (c : ascii) : bool :=
  let n := N_of_ascii c in
  ((9 <=? n) && (n <=? 13) || (28 <=? n) && (n <=? 32)
   || (n =? 133) || (n =? 160))%N.

Fixpoint str_forall (p : ascii -> bool) (s : string) : bool :=
  match s with
  | EmptyString => true
  | String c s' => p c && str_forall p s'
  end.

(** [s.isspace()]: every character is whitespace and there is at least one. *)
Definition isspace (s : string) : bool :=
  match s with
  | EmptyString => false
  | String _ _ => str_forall char_isspace s
  end.

(** [len(s)] *)
Definition str_len (s : string) : Z := Z.of_nat (String.length s).

(** [s * n]: repetition, empty when [n <= 0]. *)
Fixpoint str_repeat_nat (s : string) (n : nat) : string :=
  match n with
  | O => ""
  | S n' => s +:+ str_repeat_nat s n'
  end.

Definition str_repeat (s : string) (n : Z) : string :=
  str_repeat_nat s (Z.to_nat n).

(** The escape [\t]. *)
Definition TAB : string := String (ascii_of_nat 9) "".

(** [s.split()] with no separator: the maximal runs of non-whitespace
    characters, in order.  [split_go w s] carries the reversed word being
    read. *)
Definition rev_word (w : list ascii) : string :=
  string_of_list_ascii (rev' w).

Definition close_word (w : list ascii) (k : list string) : list string :=
  match w with
  | [] => k
  | _ :: _ => rev_word w :: k
  end.

Fixpoint split_go (w : list ascii) (s : string) : list string :=
  match s with
  | EmptyString => close_word w []
  | String c s' =>
      if char_isspace c then close_word w (split_go [] s')
      else split_go (c :: w) s'
  end.

Definition split (s : string) : list string := split_go [] s.

(** [f"{n}"] for an integer. *)
Definition str_of_int (n : Z) : string :=
  NilZero.string_of_int (Z.to_int n).

(** ** Tokens and exceptions *)

(** The token kinds of Python's [tokenize] that the parser can meet. *)
Inductive TokenType : Set :=
| ENDMARKER | NAME | NUMBER | STRING | NEWLINE | INDENT | DEDENT
| OP | COMMENT | NL | ERRORTOKEN | ENCODING.

Definition TokenType_eqb (a b : TokenType) : bool :=
  match a, b with
  | ENDMARKER, ENDMARKER | NAME, NAME | NUMBER, NUMBER | STRING, STRING
  | NEWLINE, NEWLINE | INDENT, INDENT | DEDENT, DEDENT | OP, OP
  | COMMENT, COMMENT | NL, NL | ERRORTOKEN, ERRORTOKEN
  | ENCODING, ENCODING => true
  | _, _ => false
  end.

(** [snakefmt.types.Token]: kind, text and the (row, column) where the token
    starts. *)
Record Token : Set := mkToken {
  type : TokenType;
  string_ : string;
  start : Z * Z
}.

(** The exceptions that can leave the functions embedded here.  Those of
    [snakefmt.exceptions] carry their message; the others are the built-in
    exceptions the interpreter raises on the way. *)
Inductive Exception : Set :=
| DuplicateKeyWordError (msg : string)
| EmptyContextError (msg : string)
| NoParametersError (msg : string)
| InvalidParameterSyntax (msg : string)
| TooManyParameters (msg : string)
| InvalidParameter (msg : string)
| NamedKeywordError (msg : string)
| SyntaxError (msg : string)
| AssertionError
| StopIteration
| AttributeError (attr : string)
| TypeError (msg : string)
| ExecRaised (exn : string).

Inductive result (A : Type) : Type :=
| Ok (a : A)
| Err (e : Exception).
Arguments Ok {A} a.
Arguments Err {A} e.

(** Exceptions propagate: [do x <- r; k] runs [k] only when [r] returned. *)
Definition rbind {A B : Type} (r : result A) (k : A -> result B) : result B :=
  match r with
  | Ok a => k a
  | Err e => Err e
  end.

Notation "'do' x <- r ; k" := (rbind r (fun x => k))
  (at level 10, x name, r at level 100, k at level 200).
Notation "'do' ' p <- r ; k" := (rbind r (fun x => let 'p := x in k))
  (at level 10, p pattern, r at level 100, k at level 200).

(** [next(snakefile)]: [None] is Python's [None], which is no iterator; an
    exhausted iterator raises [StopIteration]. *)
Definition next (snakefile : option (list Token))
  : result (Token * option (list Token)) :=
  match snakefile with
  | None => Err (TypeError "'NoneType' object is not an iterator")
  | Some [] => Err StopIteration
  | Some (t :: rest) => Ok (t, Some rest)
  end.

(** ** Module constants and token classifiers *)

Definition accept_python_code : gset string :=
  {[ "run"; "onstart"; "onsuccess"; "onerror" ]}.
Definition possibly_named_keywords : gset string := {[ "rule"; "checkpoint" ]}.

Definition is_op (token : Token) (s : string) : bool :=
  TokenType_eqb (type token) OP && String.eqb (string_ token) s.

Definition is_colon (token : Token) : bool := is_op token ":".
Definition brack_open (token : Token) : bool := is_op token "(".
Definition brack_close (token : Token) : bool := is_op token ")".
Definition is_equal_sign (token : Token) : bool := is_op token "=".
Definition is_comma_sign (token : Token) : bool := is_op token ",".

Definition not_to_ignore (token : Token) : bool :=
  (0 <? str_len (string_ token))
  && negb (isspace (string_ token))
  && negb (TokenType_eqb (type token) COMMENT).

(** ** [Syntax]: the block header *)

Record Syntax : Type := mkSyntax {
  keyword_name : string;
  target_indent : Z;
  cur_indent : Z;
  token : option Token   (* [None]: the attribute was never assigned *)
}.

Definition set_keyword_name (k : string) (s : Syntax) : Syntax :=
  mkSyntax k (target_indent s) (cur_indent s) (token s).
Definition set_cur_indent (n : Z) (s : Syntax) : Syntax :=
  mkSyntax (keyword_name s) (target_indent s) n (token s).
Definition set_token (t : Token) (s : Syntax) : Syntax :=
  mkSyntax (keyword_name s) (target_indent s) (cur_indent s) (Some t).

(** [self.token], an [AttributeError] while no token was read. *)
Definition get_token (self : Syntax) : result Token :=
  match token self with
  | Some t => Ok t
  | None => Err (AttributeError "token")
  end.

(** The property [line_nb], from the token it reads. *)
Definition line_nb_at (t : Token) : string :=
  "L" +:+ str_of_int (fst (start t)) +:+ ": ".

Definition line_nb (self : Syntax) : result string :=
  do t <- get_token self; Ok (line_nb_at t).

(** [Syntax.__init__]: returns the object and the iterator as it leaves it.
    The argument [keyword_name] is called [keyword] here and in the other
    constructors, [keyword_name] being the field. *)
Definition Syntax_init (keyword : string) (target_indent : Z)
    (snakefile : option (list Token))
  : result (Syntax * option (list Token)) :=
  if target_indent <? 0 then Err AssertionError else
  let self :=
    mkSyntax keyword target_indent (Z.max (target_indent - 1) 0) None in
  match snakefile with
  | None => Ok (self, None)
  | Some _ =>
      do '(tok, snakefile) <- next snakefile;
      let self := set_token tok self in
      do '(self, tok, snakefile) <-
        (if negb (is_colon tok)
            && bool_decide (keyword ∈ possibly_named_keywords)
         then
           if negb (TokenType_eqb (type tok) NAME) then
             Err (NamedKeywordError
                    (line_nb_at tok +:+ "Invalid name " +:+ string_ tok
                     +:+ " for '" +:+ keyword +:+ "'"))
           else
             let self :=
               set_keyword_name (keyword +:+ " " +:+ string_ tok) self in
             do '(tok', snakefile) <- next snakefile;
             Ok (set_token tok' self, tok', snakefile)
         else Ok (self, tok, snakefile));
      if negb (is_colon tok) then
        Err (SyntaxError
               (line_nb_at tok +:+ "Colon (not '" +:+ string_ tok
                +:+ "') expected after '" +:+ keyword_name self
                +:+ "'"))
      else Ok (self, snakefile)
  end.

(** ** [KeywordSyntax]: the keyword-block tracker *)

Record Status : Type := mkStatus {
  status_token : Token;
  status_indent : Z;
  status_buffer : string;
  status_eof : bool
}.

Record KeywordSyntax : Type := mkKeywordSyntax {
  ks_base :> Syntax;
  processed_keywords : gset string;
  accepts_python_code : bool;
  comment : string;
  queriable : bool
}.

Definition ks_with_base (b : Syntax) (s : KeywordSyntax) : KeywordSyntax :=
  mkKeywordSyntax b (processed_keywords s) (accepts_python_code s)
    (comment s) (queriable s).
Definition set_processed_keywords (p : gset string) (s : KeywordSyntax)
  : KeywordSyntax :=
  mkKeywordSyntax s p (accepts_python_code s) (comment s) (queriable s).
Definition set_comment (c : string) (s : KeywordSyntax) : KeywordSyntax :=
  mkKeywordSyntax s (processed_keywords s) (accepts_python_code s) c
    (queriable s).
Definition set_queriable (q : bool) (s : KeywordSyntax) : KeywordSyntax :=
  mkKeywordSyntax s (processed_keywords s) (accepts_python_code s)
    (comment s) q.

(** [add_processed_keyword(token, keyword)]; the default [keyword=""] is the
    case where the empty string is passed, and the test [keyword is ""] is
    read as equality with the empty string. *)
Definition add_processed_keyword (self : KeywordSyntax) (token : Token)
    (keyword : string) : result KeywordSyntax :=
  let keyword := if String.eqb keyword "" then string_ token else keyword in
  if bool_decide (keyword ∈ processed_keywords self) then
    Err (DuplicateKeyWordError
           ("L" +:+ str_of_int (fst (start token)) +:+ ": '" +:+ keyword
            +:+ "' specified twice."))
  else Ok (set_processed_keywords (processed_keywords self ∪ {[ keyword ]}) self).

Definition check_empty (self : KeywordSyntax) : result unit :=
  if bool_decide (size (processed_keywords self) = 0%nat) then
    do ln <- line_nb self;
    Err (EmptyContextError
           (ln +:+ keyword_name self +:+ " has no keywords attached to it."))
  else Ok tt.

(** [KeywordSyntax.__init__]: returns the new block, the parent as the call
    leaves it, and the iterator. *)
Definition KeywordSyntax_init (keyword : string) (target_indent : Z)
    (incident_context : option KeywordSyntax)
    (snakefile : option (list Token)) (accepts_py : bool)
  : result (KeywordSyntax * option KeywordSyntax * option (list Token)) :=
  do '(base, snakefile) <- Syntax_init keyword target_indent snakefile;
  let self := mkKeywordSyntax base ∅ accepts_py "" true in
  match incident_context with
  | None => Ok (self, None, snakefile)
  | Some parent =>
      do tok <- get_token self;
      do parent <- add_processed_keyword parent tok (keyword_name self);
      do '(tok, snakefile) <- next snakefile;
      let self := ks_with_base (set_token tok self) self in
      do '(self, tok, snakefile) <-
        (if TokenType_eqb (type tok) COMMENT then
           let self := set_comment (" " +:+ string_ tok) self in
           do '(tok', snakefile) <- next snakefile;
           Ok (ks_with_base (set_token tok' self) self, tok', snakefile)
         else Ok (self, tok, snakefile));
      if negb (TokenType_eqb (type tok) NEWLINE) then
        Err (SyntaxError
               (line_nb_at tok +:+ "Newline expected after keyword '"
                +:+ keyword_name self +:+ "'"))
      else Ok (self, Some parent, snakefile)
  end.

(** [get_next_queriable]: the [while True] loop, by recursion on the tokens
    still to be read; [buffer] and [newline] are its local variables. *)
Fixpoint get_next_queriable_loop (self : KeywordSyntax) (buffer : string)
    (newline : bool) (snakefile : list Token)
  : result (Status * KeywordSyntax * list Token) :=
  match snakefile with
  | [] => Err StopIteration
  | token :: snakefile =>
      match type token with
      | NAME =>
          let buffer :=
            if newline then buffer +:+ str_repeat TAB (cur_indent self)
            else buffer in
          if (cur_indent self <=? target_indent self) && queriable self then
            Ok (mkStatus token (cur_indent self) buffer false,
                set_queriable false self, snakefile)
          else
            get_next_queriable_loop self
              ((buffer +:+ " ") +:+ string_ token) false snakefile
      | INDENT =>
          get_next_queriable_loop
            (ks_with_base (set_cur_indent (cur_indent self + 1) self) self)
            buffer newline snakefile
      | DEDENT =>
          let self :=
            if 0 <? cur_indent self
            then ks_with_base (set_cur_indent (cur_indent self - 1) self) self
            else self in
          get_next_queriable_loop self (buffer +:+ string_ token) newline
            snakefile
      | ENDMARKER =>
          Ok (mkStatus token (cur_indent self) buffer true, self, snakefile)
      | NEWLINE =>
          get_next_queriable_loop (set_queriable true self)
            (buffer +:+ string_ token) true snakefile
      | _ =>
          get_next_queriable_loop self (buffer +:+ string_ token) newline
            snakefile
      end
  end.

Definition get_next_queriable (self : KeywordSyntax)
    (snakefile : option (list Token))
  : result (Status * KeywordSyntax * list Token) :=
  match snakefile with
  | None => Err (TypeError "'NoneType' object is not an iterator")
  | Some toks => get_next_queriable_loop self "" false toks
  end.

(** ** [Parameter]: one parameter being accumulated *)

(** The class [Parameter]; the name is reserved here, hence [Param]. *)
Record Param : Type := mkParam {
  key : string;
  value : string;
  comments : list string;
  is_string : bool;
  len : Z
}.

(** [Parameter()] *)
Definition Param_init : Param := mkParam "" "" [] true 0.

Definition has_key (self : Param) : bool := 0 <? str_len (key self).
Definition has_value (self : Param) : bool := 0 <? str_len (value self).

Definition add_elem (self : Param) (token : Token) : Param :=
  let is_string :=
    if negb (TokenType_eqb (type token) STRING) then false
    else is_string self in
  let value :=
    if (0 <? str_len (value self)) && TokenType_eqb (type token) NAME
    then value self +:+ " " else value self in
  mkParam (key self) (value +:+ string_ token) (comments self) is_string
    (len self).

(** What [exec(code)] does, as far as its caller can tell from the way the
    call ends: it returns, it raises [SyntaxError] (or a subclass), or it
    raises something else.

    The code run is [<value> = 0].  When [<value>] is an identifier the
    assignment binds a name in the namespace of the call and touches no
    object of the parser.  A [<value>] that refers into an object the call
    can reach ([self.value], [self.comments], [tokenize.OP]) makes [exec]
    assign into that object; the outcome type has no place for such an
    effect, and the embedding covers the calls of [exec] that leave the
    objects of their caller as they were. *)
Inductive ExecOutcome : Set :=
| ExecReturns
| ExecSyntaxError
| ExecOtherError (exn : string).

Section ParameterParsing.

(** The built-in [exec] is not part of the module: it is taken as given. *)
Variable py_exec : string -> ExecOutcome.

Definition to_key_val_mode (self : Param) (token : Token)
  : result Param :=
  if negb (has_value self) then
    Err (InvalidParameterSyntax
           ("L" +:+ str_of_int (fst (start token))
            +:+ ":Operator = used with no preceding key"))
  else
    match py_exec (value self +:+ " = 0") with
    | ExecSyntaxError =>
        Err (InvalidParameterSyntax
               ("L" +:+ str_of_int (fst (start token)) +:+ ":Invalid key "
                +:+ value self))
    | ExecOtherError exn => Err (ExecRaised exn)
    | ExecReturns =>
        Ok (mkParam (value self) "" (comments self) true (len self))
    end.

(** ** [ParameterSyntax]: the parameter-list parser *)

(** [incident_vocab] stands for the vocabulary object through the one method
    called on it, [recognises]. *)
Record ParameterSyntax : Type := mkParameterSyntax {
  ps_base :> Syntax;
  param_processed_keywords : gset string;
  positional_params : list Param;
  keyword_params : list Param;
  eof : bool;
  incident_vocab : string -> bool;
  found_newline : bool;
  in_brackets : bool
}.

Definition ps_with_base (b : Syntax) (s : ParameterSyntax) : ParameterSyntax :=
  mkParameterSyntax b (param_processed_keywords s) (positional_params s)
    (keyword_params s) (eof s) (incident_vocab s) (found_newline s)
    (in_brackets s).
Definition set_positional_params (l : list Param) (s : ParameterSyntax)
  : ParameterSyntax :=
  mkParameterSyntax s (param_processed_keywords s) l (keyword_params s)
    (eof s) (incident_vocab s) (found_newline s) (in_brackets s).
Definition set_keyword_params (l : list Param) (s : ParameterSyntax)
  : ParameterSyntax :=
  mkParameterSyntax s (param_processed_keywords s) (positional_params s) l
    (eof s) (incident_vocab s) (found_newline s) (in_brackets s).
Definition set_eof (b : bool) (s : ParameterSyntax) : ParameterSyntax :=
  mkParameterSyntax s (param_processed_keywords s) (positional_params s)
    (keyword_params s) b (incident_vocab s) (found_newline s) (in_brackets s).
Definition set_found_newline (b : bool) (s : ParameterSyntax)
  : ParameterSyntax :=
  mkParameterSyntax s (param_processed_keywords s) (positional_params s)
    (keyword_params s) (eof s) (incident_vocab s) b (in_brackets s).
Definition set_in_brackets (b : bool) (s : ParameterSyntax) : ParameterSyntax :=
  mkParameterSyntax s (param_processed_keywords s) (positional_params s)
    (keyword_params s) (eof s) (incident_vocab s) (found_newline s) b.

(** The property [all_params]. *)
Definition all_params (self : ParameterSyntax) : list Param :=
  positional_params self ++ keyword_params self.

Definition num_params (self : ParameterSyntax) : Z :=
  Z.of_nat (length (keyword_params self))
  + Z.of_nat (length (positional_params self)).

Definition flush_param (self : ParameterSyntax) (parameter : Param)
    (skip_empty : bool) : ParameterSyntax :=
  if negb (has_value parameter) && skip_empty then self
  else if has_key parameter then
    set_keyword_params (keyword_params self ++ [parameter]) self
  else
    set_positional_params (positional_params self ++ [parameter]) self.

(** [check_exit]: the answer and the object as the call leaves it. *)
Definition check_exit (self : ParameterSyntax) (cur_param : Param)
  : result (bool * ParameterSyntax) :=
  if found_newline self then
    do tok <- get_token self;
    if not_to_ignore tok then
      if cur_indent self <? target_indent self then
        Ok (true, flush_param self cur_param true)
      else Ok (false, self)
    else Ok (false, self)
  else Ok (false, self).

(** [process_token]: the object as the call leaves it and the parameter it
    returns. *)
Definition process_token (self : ParameterSyntax) (cur_param : Param)
  : result (ParameterSyntax * Param) :=
  do tok <- get_token self;
  let t_t := type tok in
  if TokenType_eqb t_t INDENT then
    Ok (ps_with_base (set_cur_indent (cur_indent self + 1) self) self,
        cur_param)
  else if TokenType_eqb t_t DEDENT then
    Ok (ps_with_base (set_cur_indent (cur_indent self - 1) self) self,
        cur_param)
  else if TokenType_eqb t_t NEWLINE || TokenType_eqb t_t NL then
    Ok (set_found_newline true self, cur_param)
  else if TokenType_eqb t_t COMMENT then
    Ok (self,
        mkParam (key cur_param) (value cur_param)
          (comments cur_param ++ [string_ tok]) (is_string cur_param)
          (len cur_param))
  else if is_equal_sign tok && negb (in_brackets self) then
    do cur_param <- to_key_val_mode cur_param tok;
    Ok (self, cur_param)
  else if is_comma_sign tok && negb (in_brackets self) then
    Ok (flush_param self cur_param false, Param_init)
  else if negb (TokenType_eqb t_t ENDMARKER) then
    let self := if brack_open tok then set_in_brackets true self else self in
    let self := if brack_close tok then set_in_brackets false self else self in
    if (length (split (value cur_param)) =? 1)%nat
       && incident_vocab self (value cur_param)
    then
      Err (InvalidParameterSyntax
             (line_nb_at tok +:+ "Over-indented recognised keyword found: '"
              +:+ value cur_param +:+ "'"))
    else Ok (self, add_elem cur_param tok)
  else Ok (self, cur_param).

(** The [while True] loop of [parse_params], by recursion on the tokens
    still to be read; the empty list is [StopIteration]. *)
Fixpoint parse_params_loop (self : ParameterSyntax) (cur_param : Param)
    (snakefile : list Token) : result (ParameterSyntax * list Token) :=
  match snakefile with
  | [] => Ok (set_eof true (flush_param self cur_param true), [])
  | tok :: snakefile =>
      let self := ps_with_base (set_token tok self) self in
      do '(exit, self) <- check_exit self cur_param;
      if exit : bool then Ok (self, snakefile)
      else
        do '(self, cur_param) <- process_token self cur_param;
        parse_params_loop self cur_param snakefile
  end.

Definition parse_params (self : ParameterSyntax)
    (snakefile : option (list Token))
  : result (ParameterSyntax * list Token) :=
  let self := set_in_brackets false (set_found_newline false self) in
  match snakefile with
  | None => Err (TypeError "'NoneType' object is not an iterator")
  | Some toks =>
      do '(self, rest) <- parse_params_loop self Param_init toks;
      if num_params self =? 0 then
        do ln <- line_nb self;
        Err (NoParametersError
               (ln +:+ "In " +:+ keyword_name self +:+ " definition."))
      else Ok (self, rest)
  end.

(** [ParameterSyntax.__init__] (also [ParamList]). *)
Definition ParameterSyntax_init (keyword : string) (target_indent : Z)
    (incident_vocab : string -> bool) (snakefile : option (list Token))
  : result (ParameterSyntax * list Token) :=
  do '(base, snakefile) <- Syntax_init keyword target_indent snakefile;
  let self := mkParameterSyntax base ∅ [] [] false incident_vocab false false in
  parse_params self snakefile.

(** *** Calls from the subclasses

    The subclasses reach [ParameterSyntax.__init__] through
    [super().__init__(...)] with positional arguments, which Python binds to
    the four parameters after [self], none of which has a default. *)
Inductive PyArg : Type :=
| ArgStr (s : string)
| ArgInt (n : Z)
| ArgVocab (recognises : string -> bool)
| ArgTokens (snakefile : option (list Token)).

Definition ParameterSyntax_params : list string :=
  ["keyword_name"; "target_indent"; "incident_vocab"; "snakefile"].

Fixpoint quote_names (names : list string) : string :=
  match names with
  | [] => ""
  | [a] => "'" +:+ a +:+ "'"
  | [a; b] => "'" +:+ a +:+ "' and '" +:+ b +:+ "'"
  | a :: rest =>
      "'" +:+ a +:+ "', "
      +:+ match rest with
          | [b; c] => "'" +:+ b +:+ "', and '" +:+ c +:+ "'"
          | _ => quote_names rest
          end
  end.

(** The message is the one of CPython up to 3.9; later versions put the
    class name before [__init__]. *)
Definition missing_arguments (names : list string) : Exception :=
  TypeError
    ("__init__() missing " +:+ str_of_int (Z.of_nat (length names))
     +:+ " required positional argument"
     +:+ (if (length names =? 1)%nat then ": " else "s: ")
     +:+ quote_names names).

(** The call [ParameterSyntax.__init__(self, *args)].  Arguments of another
    kind than the annotated one do not occur in this module and are rejected
    here. *)
Definition ParameterSyntax_call (args : list PyArg)
  : result (ParameterSyntax * list Token) :=
  match drop (length args) ParameterSyntax_params with
  | (_ :: _) as missing => Err (missing_arguments missing)
  | [] =>
      match args with
      | [ArgStr keyword; ArgInt target_indent; ArgVocab incident_vocab;
         ArgTokens snakefile] =>
          ParameterSyntax_init keyword target_indent incident_vocab
            snakefile
      | [_; _; _; _] => Err (TypeError "argument of an unexpected kind")
      | _ =>
          Err (TypeError
                 ("__init__() takes 5 positional arguments but "
                  +:+ str_of_int (Z.of_nat (length args) + 1)
                  +:+ " were given"))
      end
  end.


(** [NoKeywordParamList.__init__]: the call to the parent passes
    [keyword_name, target_indent, snakefile], three arguments. *)
Definition NoKeywordParamList_init (keyword : string) (target_indent : Z)
    (incident_vocab : string -> bool) (snakefile : option (list Token))
  : result (ParameterSyntax * list Token) :=
  do '(self, rest) <-
    ParameterSyntax_call
      [ArgStr keyword; ArgInt target_indent; ArgTokens snakefile];
  if (0 <? length (keyword_params self))%nat then
    do ln <- line_nb self;
    Err (InvalidParameterSyntax
           (ln +:+ keyword_name self
            +:+ " definition does not accept key/value parameters"))
  else Ok (self, rest).

End ParameterParsing.

(** ** Vocabulary of the statements *)

(** Tokens that only carry layout: line ends, indentation changes and the
    end marker. *)
Definition is_layout (t : Token) : bool :=
  match type t with
  | NEWLINE | NL | INDENT | DEDENT | ENDMARKER => true
  | _ => false
  end.

(** A token that is a value on its own: a name, a number or a string
    literal, with some text. *)
Definition bare_value (t : Token) : bool :=
  match type t with
  | NAME | NUMBER | STRING => negb (String.eqb (string_ t) "")
  | _ => false
  end.


(** What [tokenize] guarantees about the text of layout tokens: an INDENT
    carries the leading whitespace, DEDENT and ENDMARKER carry no text, a
    line end carries the line terminator or nothing. *)
Definition tokenize_consistent (t : Token) : bool :=
  match type t with
  | INDENT => isspace (string_ t)
  | DEDENT | ENDMARKER => String.eqb (string_ t) ""
  | NEWLINE | NL => String.eqb (string_ t) "" || isspace (string_ t)
  | _ => true
  end.

(** [is_tok ty s t]: [t] has kind [ty] and text [s]. *)
Definition is_tok (ty : TokenType) (s : string) (t : Token) : Prop :=
  type t = ty /\ string_ t = s.

(** The tokens of a block header after its keyword: an optional name, the
    colon, an optional trailing comment, the line end, then whatever
    follows. *)
Definition header_tokens (name : option Token) (colon : Token)
    (trailing : option Token) (newline : Token) (rest : list Token)
  : list Token :=
  option_list name ++ colon :: option_list trailing ++ newline :: rest.

(** The identity such a header resolves to. *)
Definition header_identity (keyword : string) (name : option Token) : string :=
  match name with
  | Some n => keyword +:+ " " +:+ string_ n
  | None => keyword
  end.

Definition header_well_formed (keyword : string) (name : option Token)
    (colon : Token) (trailing : option Token) (newline : Token) : Prop :=
  is_colon colon = true
  /\ match name with
     | Some n => type n = NAME /\ keyword ∈ possibly_named_keywords
     | None => True
     end
  /\ match trailing with
     | Some c => type c = COMMENT
     | None => True
     end
  /\ type newline = NEWLINE.

(** The text the header line leaves in [comment]. *)
Definition header_comment (trailing : option Token) : string :=
  match trailing with
  | Some c => " " +:+ string_ c
  | None => ""
  end.

(** The keys and values of a list of parameters, in order. *)
Definition keys_values (l : list Param) : list (string * string) :=
  map (fun p => (key p, value p)) l.

(** Two parser objects with the same parameter lists. *)
Definition same_lists (s1 s2 : ParameterSyntax) : Prop :=
  positional_params s1 = positional_params s2
  /\ keyword_params s1 = keyword_params s2.

(** Sample tokens, all on line [row]. *)
Definition tk (ty : TokenType) (s : string) (row : Z) : Token :=
  mkToken ty s (row, 0).

Definition LF : string := String (ascii_of_nat 10) "".

(** A vocabulary that recognises nothing, one that recognises the keywords
    of a rule body, and an [exec] that accepts the two keys [x] and [y]. *)
Definition empty_vocab (_ : string) : bool := false.
Definition rule_vocab (s : string) : bool :=
  String.eqb s "input" || String.eqb s "output".
Definition exec_xy (code : string) : ExecOutcome :=
  if String.eqb code "x = 0" || String.eqb code "y = 0" then ExecReturns
  else ExecSyntaxError.

(** [input: "a"] followed by the line end and the dedent that closes the
    rule body. *)
Definition tokens_input_a : list Token :=
  [tk OP ":" 2; tk STRING "'a'" 2; tk NEWLINE LF 2; tk DEDENT "" 3;
   tk ENDMARKER "" 3].


(** A parameter-list parser at target depth 1 that has just read a comma at
    depth 0, after a line end, outside brackets. *)
Definition parser_at_comma : ParameterSyntax :=
  mkParameterSyntax (mkSyntax "input" 1 0 (Some (tk OP "," 2))) ∅ [] [] false
    rule_vocab true false.

(** The same parser inside brackets, reading the name [b]. *)
Definition parser_in_brackets : ParameterSyntax :=
  mkParameterSyntax (mkSyntax "input" 1 0 (Some (tk NAME "b" 2))) ∅ [] []
    false rule_vocab false true.

(** A parameter whose value so far is the keyword [output]. *)
Definition param_output : Param := mkParam "" "output" [] false 0.

(** A global context with nothing registered. *)
Definition global_context : KeywordSyntax :=
  mkKeywordSyntax (mkSyntax "Global" 0 0 None) ∅ true "" true.

(** The global context after it yielded a name: the flag is cleared. *)
Definition global_after_yield : KeywordSyntax :=
  mkKeywordSyntax (mkSyntax "Global" 0 0 None) ∅ true "" false.

(** The rest of the line [rule foo:] and the next line [rule bar:]. *)
Definition tokens_two_rules : list Token :=
  [tk NAME "foo" 1; tk OP ":" 1; tk NEWLINE LF 1; tk NAME "rule" 2;
   tk NAME "bar" 2; tk OP ":" 2; tk NEWLINE LF 2; tk ENDMARKER "" 3].

(** [a, b, c], [x = 1, y = 2], [a, b], [x = 1] and [a], each after the
    header colon and followed by the end of the line and of the input. *)
Definition line_end : list Token := [tk NEWLINE LF 1; tk ENDMARKER "" 2].
Definition tokens_a_b_c : list Token :=
  [tk OP ":" 1; tk NAME "a" 1; tk OP "," 1; tk NAME "b" 1; tk OP "," 1;
   tk NAME "c" 1] ++ line_end.
Definition tokens_x_1_y_2 : list Token :=
  [tk OP ":" 1; tk NAME "x" 1; tk OP "=" 1; tk NUMBER "1" 1; tk OP "," 1;
   tk NAME "y" 1; tk OP "=" 1; tk NUMBER "2" 1] ++ line_end.
Definition tokens_none : list Token := tk OP ":" 1 :: line_end.

(** A global context in which the block [rule foo] is already registered. *)
Definition global_with_rule_foo : KeywordSyntax :=
  mkKeywordSyntax (mkSyntax "Global" 0 0 None) {[ "rule foo" ]} true "" true.




(** [rule foo:] and the line end, then the first token of the body. *)
Definition tokens_rule_foo : list Token :=
  [tk NAME "foo" 1; tk OP ":" 1; tk NEWLINE LF 1; tk INDENT TAB 2].

(** ** Vocabulary of the further properties *)

(** The five operator classifiers. *)
Definition operator_classifiers : list (Token -> bool) :=
  [is_colon; brack_open; brack_close; is_equal_sign; is_comma_sign].

(** Registering children one after the other, each by its token and its
    identity. *)
Fixpoint register_all (self : KeywordSyntax) (children : list (Token * string))
  : result KeywordSyntax :=
  match children with
  | [] => Ok self
  | (t, k) :: children =>
      do self <- add_processed_keyword self t k;
      register_all self children
  end.

(** [add_elem] on each token of a list, in order. *)
Definition add_elems (self : Param) (toks : list Token) : Param :=
  fold_left add_elem toks self.




(** A token stream without its comment tokens. *)
Definition strip_comments (toks : list Token) : list Token :=
  List.filter (fun t => negb (TokenType_eqb (type t) COMMENT)) toks.

(** Two parameters that differ at most in their comments, and two parser
    objects that differ at most in the comments of their parameters and in
    the token they read last. *)
Definition same_param (p q : Param) : Prop :=
  key p = key q /\ value p = value q /\ is_string p = is_string q
  /\ len p = len q.

Definition same_parse (s1 s2 : ParameterSyntax) : Prop :=
  keyword_name s1 = keyword_name s2
  /\ target_indent s1 = target_indent s2
  /\ cur_indent s1 = cur_indent s2
  /\ eof s1 = eof s2
  /\ incident_vocab s1 = incident_vocab s2
  /\ found_newline s1 = found_newline s2
  /\ in_brackets s1 = in_brackets s2
  /\ Forall2 same_param (positional_params s1) (positional_params s2)
  /\ Forall2 same_param (keyword_params s1) (keyword_params s2).

(** The outcomes of two scans agree up to comments. *)
Definition same_outcome (r1 r2 : result (ParameterSyntax * list Token)) : Prop :=
  match r1, r2 with
  | Ok (s1, rest1), Ok (s2, rest2) =>
      same_parse s1 s2 /\ rest2 = strip_comments rest1
  | Err e1, Err e2 => e1 = e2
  | _, _ => False
  end.

(** A block under the global context whose header was read up to the line
    end, and the global context itself, which never read a token. *)
Definition block_rule_foo : KeywordSyntax :=
  mkKeywordSyntax (mkSyntax "rule foo" 1 0 (Some (tk NEWLINE LF 1))) ∅ false ""
    true.

(** [rule foo:] with a trailing comment. *)
Definition tokens_rule_foo_comment : list Token :=
  [tk NAME "foo" 1; tk OP ":" 1; tk COMMENT "# first" 1; tk NEWLINE LF 1;
   tk INDENT TAB 2].


(** A fresh parser object at target depth 1, as the constructor builds it
    after the header colon. *)
Definition parser_after_colon : ParameterSyntax :=
  mkParameterSyntax (mkSyntax "input" 1 0 (Some (tk OP ":" 1))) ∅ [] [] false
    rule_vocab false false.

(** Positional parameters have no key. *)
Definition positional_ok (l : list Param) : Prop :=
  Forall (fun p => has_key p = false) l.

(** A token stream with no equals sign in it: on such a stream
    [to_key_val_mode], and with it [exec], is never called. *)
Definition no_equal_sign (toks : list Token) : bool :=
  forallb (fun t => negb (is_equal_sign t)) toks.

(** An identifier in ASCII: a letter or an underscore, then letters, digits
    and underscores.  With such a text [exec] of [<text> = 0] either raises
    (the text is a reserved word) or binds a name of its own. *)
Definition identifier_start (c : ascii) : bool :=
  let n := N_of_ascii c in
  ((65 <=? n) && (n <=? 90) || (97 <=? n) && (n <=? 122) || (n =? 95))%N.

Definition identifier_char (c : ascii) : bool :=
  let n := N_of_ascii c in
  identifier_start c || ((48 <=? n) && (n <=? 57))%N.

Definition is_identifier (s : string) : bool :=
  match s with
  | EmptyString => false
  | String c s' => identifier_start c && str_forall identifier_char s'
  end.

(** A [NAME] token whose text is an identifier. *)
Definition identifier_name (t : Token) : bool :=
  TokenType_eqb (type t) NAME && is_identifier (string_ t).

(** ['a',  # first] + line break + ['b'] + line end. *)
Definition tokens_a_comment_b : list Token :=
  [tk STRING "'a'" 1; tk OP "," 1; tk COMMENT "# first" 1; tk NL LF 1;
   tk STRING "'b'" 2; tk COMMENT "# second" 2; tk NEWLINE LF 2].

(** [x = y = 1] after the header colon. *)
Definition tokens_x_y_1 : list Token :=
  [tk OP ":" 1; tk NAME "x" 1; tk OP "=" 1; tk NAME "y" 1; tk OP "=" 1;
   tk NUMBER "1" 1] ++ line_end.

(** The block that [rule foo:  # first] creates. *)
Definition block_rule_foo_comment : KeywordSyntax :=
  mkKeywordSyntax (mkSyntax "rule foo" 1 0 (Some (tk NEWLINE LF 1))) ∅ false
    " # first" true.

(** The status and the object that [get_next_queriable] leaves on
    [tokens_two_rules] after [rule] was yielded: the next [rule] is found on
    the second line. *)
Definition status_second_rule : Status :=
  mkStatus (tk NAME "rule" 2) 0 (" foo:" +:+ LF) false.

Definition rest_second_rule : list Token :=
  [tk NAME "bar" 2; tk OP ":" 2; tk NEWLINE LF 2; tk ENDMARKER "" 3].


(** * Properties *)

(** ** Token kinds and classifiers *)

Lemma TokenType_eqb_eq (a b : TokenType) : TokenType_eqb a b = true <-> a = b.
Proof. split; [destruct a, b; simpl; congruence | intros ->; destruct b; reflexivity]. Qed.

Lemma TokenType_eqb_refl (a : TokenType) : TokenType_eqb a a = true.
Proof. now apply TokenType_eqb_eq. Qed.

Lemma TokenType_eqb_neq (a b : TokenType) : TokenType_eqb a b = false <-> a <> b.
Proof.
  split.
  - intros H ->. rewrite TokenType_eqb_refl in H. discriminate.
  - intros H. destruct (TokenType_eqb a b) eqn:E; [|reflexivity].
    apply TokenType_eqb_eq in E. contradiction.
Qed.

Lemma is_op_spec (t : Token) (s : string) :
  is_op t s = true <-> type t = OP /\ string_ t = s.
Proof.
  unfold is_op. rewrite andb_true_iff, TokenType_eqb_eq, String.eqb_eq.
  reflexivity.
Qed.

Lemma is_op_other_type (t : Token) (s : string) :
  type t <> OP -> is_op t s = false.
Proof.
  intros H. unfold is_op. apply TokenType_eqb_neq in H. now rewrite H.
Qed.

Lemma is_op_other_string (t : Token) (s s' : string) :
  is_op t s = true -> s <> s' -> is_op t s' = false.
Proof.
  intros [Ht Hs]%is_op_spec Hne. unfold is_op.
  rewrite Ht, Hs. simpl. now apply String.eqb_neq.
Qed.

Lemma str_len_pos (s : string) : s <> "" -> (0 <? str_len s) = true.
Proof.
  intros H. destruct s as [|c s]; [contradiction|].
  unfold str_len. simpl String.length. apply Z.ltb_lt. lia.
Qed.


Lemma str_append_nil_r (s : string) : s +:+ "" = s.
Proof.
  induction s as [|c s IH]; [reflexivity|].
  change (String c (s +:+ "") = String c s). now rewrite IH.
Qed.

Lemma str_append_assoc (s1 s2 s3 : string) :
  (s1 +:+ s2) +:+ s3 = s1 +:+ (s2 +:+ s3).
Proof.
  induction s1 as [|c s1 IH]; [reflexivity|].
  change (String c ((s1 +:+ s2) +:+ s3) = String c (s1 +:+ (s2 +:+ s3))).
  now rewrite IH.
Qed.

(** ** Indentation depth *)

(** The parameter-list parser decrements on every DEDENT, whatever the
    depth. *)
Lemma process_token_dedent py_exec (self : ParameterSyntax) (cur : Param)
    (tok : Token) :
  token self = Some tok -> type tok = DEDENT ->
  exists self',
    process_token py_exec self cur = Ok (self', cur)
    /\ cur_indent self' = cur_indent self - 1.
Proof.
  intros Htok Hty. unfold process_token, get_token. rewrite Htok. simpl.
  rewrite Hty. simpl. eexists. split; reflexivity.
Qed.

Lemma process_token_indent py_exec (self : ParameterSyntax) (cur : Param)
    (tok : Token) :
  token self = Some tok -> type tok = INDENT ->
  exists self',
    process_token py_exec self cur = Ok (self', cur)
    /\ cur_indent self' = cur_indent self + 1.
Proof.
  intros Htok Hty. unfold process_token, get_token. rewrite Htok. simpl.
  rewrite Hty. simpl. eexists. split; reflexivity.
Qed.

(** In the parameter-list parser too, an INDENT directly followed by a DEDENT
    leaves the counter where it was. *)
Lemma parse_params_loop_pair py_exec (self : ParameterSyntax) (cur : Param)
    (i d : Token) (rest : list Token) :
  found_newline self = false -> type i = INDENT -> type d = DEDENT ->
  exists self',
    parse_params_loop py_exec self cur (i :: d :: rest)
    = parse_params_loop py_exec self' cur rest
    /\ cur_indent self' = cur_indent self.
Proof.
  intros Hnl Hi Hd. simpl. unfold check_exit. simpl. rewrite Hnl. simpl.
  unfold process_token at 1. simpl. rewrite Hi. simpl. rewrite Hnl. simpl.
  unfold process_token at 1. simpl. rewrite Hd. simpl.
  eexists. split; [reflexivity|]. simpl. lia.
Qed.

(** The tracker keeps the depth at or above zero: every status it returns,
    and the object it leaves, have a non-negative depth. *)
Lemma get_next_queriable_loop_nonneg (snakefile : list Token) :
  forall (self : KeywordSyntax) buffer newline st self' rest,
    0 <= cur_indent self ->
    get_next_queriable_loop self buffer newline snakefile
      = Ok (st, self', rest) ->
    0 <= cur_indent self' /\ 0 <= status_indent st.
Proof.
  induction snakefile as [|t toks IH]; intros self buffer newline st self' rest
    Hpos Hrun; simpl in Hrun; [discriminate|].
  destruct (type t); try (eapply IH; [|exact Hrun]; simpl; assumption).
  - (* ENDMARKER *) inversion Hrun; subst. simpl. split; assumption.
  - (* NAME *)
    destruct ((cur_indent self <=? target_indent self) && queriable self).
    + inversion Hrun; subst. simpl. split; assumption.
    + eapply IH; [|exact Hrun]. assumption.
  - (* INDENT *) eapply IH; [|exact Hrun]. simpl. lia.
  - (* DEDENT *)
    eapply IH; [|exact Hrun].
    destruct (0 <? cur_indent self) eqn:E; simpl; [|assumption].
    apply Z.ltb_lt in E. lia.
Qed.

(** An INDENT directly followed by a DEDENT leaves the tracker where it
    was. *)
Lemma get_next_queriable_loop_pair (self : KeywordSyntax) buffer newline
    (i d : Token) (rest : list Token) :
  0 <= cur_indent self -> type i = INDENT -> type d = DEDENT ->
  get_next_queriable_loop self buffer newline (i :: d :: rest)
  = get_next_queriable_loop self (buffer +:+ string_ d) newline rest.
Proof.
  intros Hpos Hi Hd. simpl. rewrite Hi, Hd. simpl.
  replace (0 <? cur_indent self + 1) with true
    by (symmetry; apply Z.ltb_lt; lia).
  f_equal. destruct self as [[k t c tk0] p a cm q]. simpl in *.
  unfold ks_with_base, set_cur_indent. simpl. do 2 f_equal. lia.
Qed.

(** C1 (code at the failing input): parsing the parameter list of
    [input: 'a'] at target depth 1, where the line is followed by the DEDENT
    that closes the enclosing block, ends with the depth counter of the
    parameter-list parser at -1. *)
Theorem C1_parameter_parser_depth_below_zero :
  forall py_exec incident_vocab,
  exists self rest,
    ParameterSyntax_init py_exec "input" 1 incident_vocab
      (Some tokens_input_a) = Ok (self, rest)
    /\ cur_indent self = -1.
Proof.
  intros py_exec incident_vocab. eexists _, _. split.
  - vm_compute. reflexivity.
  - reflexivity.
Qed.

(** ** [NoKeywordParamList] *)

(** C2 (code at every input): constructing a [NoKeywordParamList] never gets
    as far as parsing; the call to the parent constructor lacks one argument
    and raises [TypeError]. *)
Theorem C2_NoKeywordParamList_raises_TypeError :
  forall py_exec keyword_name target_indent incident_vocab snakefile,
    NoKeywordParamList_init py_exec keyword_name target_indent incident_vocab
      snakefile
    = Err (TypeError
             "__init__() missing 1 required positional argument: 'snakefile'").
Proof. intros. reflexivity. Qed.

(** ** Flushing a parameter *)

Lemma flush_param_skip_empty (self : ParameterSyntax) (cur : Param) :
  has_value cur = false -> flush_param self cur true = self.
Proof. intros H. unfold flush_param. now rewrite H. Qed.

Lemma flush_param_keep (self : ParameterSyntax) (cur : Param) :
  flush_param self cur false
  = if has_key cur
    then set_keyword_params (keyword_params self ++ [cur]) self
    else set_positional_params (positional_params self ++ [cur]) self.
Proof. unfold flush_param. now rewrite andb_false_r. Qed.

Lemma process_token_comma py_exec (self : ParameterSyntax) (cur : Param)
    (tok : Token) :
  token self = Some tok -> is_comma_sign tok = true ->
  in_brackets self = false ->
  process_token py_exec self cur = Ok (flush_param self cur false, Param_init).
Proof.
  intros Htok Hc Hb. pose proof Hc as [Hty Hs]%is_op_spec.
  assert (Heq : is_equal_sign tok = false)
    by (apply (is_op_other_string tok "," "=" Hc); discriminate).
  unfold process_token, get_token. rewrite Htok. unfold rbind.
  rewrite Hty. cbn [TokenType_eqb orb].
  rewrite Heq, Hc, Hb. reflexivity.
Qed.

(** C3: a top-level comma flushes the current parameter whether or not it
    has a value (it is appended to the keyed list when it has a key, to the
    positional list otherwise, and a fresh parameter is started), while the
    flush at the end of the input and the flush at the dedent exit leave both
    lists as they were when the current parameter has no value. *)
Theorem C3_comma_keeps_empty_parameter_end_drops_it :
  forall py_exec (self : ParameterSyntax) (cur : Param) (tok : Token)
         (rest : list Token),
    (token self = Some tok -> is_comma_sign tok = true ->
     in_brackets self = false ->
     exists self',
       process_token py_exec self cur = Ok (self', Param_init)
       /\ (if has_key cur
           then keyword_params self' = keyword_params self ++ [cur]
                /\ positional_params self' = positional_params self
           else positional_params self' = positional_params self ++ [cur]
                /\ keyword_params self' = keyword_params self))
    /\ (has_value cur = false ->
        parse_params_loop py_exec self cur [] = Ok (set_eof true self, []))
    /\ (has_value cur = false ->
        found_newline self = true -> not_to_ignore tok = true ->
        cur_indent self < target_indent self ->
        parse_params_loop py_exec self cur (tok :: rest)
        = Ok (ps_with_base (set_token tok self) self, rest)).
Proof.
  intros py_exec self cur tok rest. split; [|split].
  - intros Htok Hc Hb. exists (flush_param self cur false). split.
    + now apply (process_token_comma py_exec self cur tok).
    + rewrite flush_param_keep. destruct (has_key cur); simpl; split; reflexivity.
  - intros Hv. simpl. now rewrite flush_param_skip_empty.
  - intros Hv Hnl Hsig Hlt. simpl. unfold check_exit, get_token. simpl.
    rewrite Hnl, Hsig. simpl.
    apply Z.ltb_lt in Hlt. rewrite Hlt. simpl.
    now rewrite flush_param_skip_empty.
Qed.

(** ** The parameter count *)




(** The token attribute, once assigned, stays assigned. *)
Lemma flush_param_token (self : ParameterSyntax) (cur : Param) (b : bool) :
  token (flush_param self cur b) = token self.
Proof.
  unfold flush_param.
  destruct (negb (has_value cur) && b), (has_key cur); reflexivity.
Qed.

Lemma check_exit_token (self : ParameterSyntax) (cur : Param) b self' :
  check_exit self cur = Ok (b, self') -> token self' = token self.
Proof.
  unfold check_exit, get_token.
  destruct (found_newline self); [|now intros [= <- <-]].
  destruct (token self) as [tok|] eqn:Htok; simpl; [|discriminate].
  destruct (not_to_ignore tok); [|now intros [= <- <-]].
  destruct (cur_indent self <? target_indent self); intros [= <- <-];
    [|assumption].
  now rewrite flush_param_token.
Qed.

Lemma process_token_token py_exec (self : ParameterSyntax) (cur : Param)
    self' cur' :
  process_token py_exec self cur = Ok (self', cur') ->
  token self' = token self.
Proof.
  unfold process_token, get_token.
  destruct (token self) as [tok|] eqn:Htok; simpl; [|discriminate].
  repeat match goal with
         | |- context [if ?b then _ else _] => destruct b
         end;
    try (intros [= <- <-]; simpl; try rewrite flush_param_token;
         assumption || reflexivity || congruence).
  all: destruct (to_key_val_mode py_exec cur tok); simpl;
    intros [= <- <-]; assumption.
Qed.

Lemma parse_params_loop_token py_exec (snakefile : list Token) :
  forall (self : ParameterSyntax) (cur : Param) self' rest,
    token self <> None ->
    parse_params_loop py_exec self cur snakefile = Ok (self', rest) ->
    token self' <> None.
Proof.
  induction snakefile as [|t toks IH]; intros self cur self' rest Hsome; simpl.
  - intros [= <- <-]. simpl. now rewrite flush_param_token.
  - destruct (check_exit _ cur) as [[[] s1]|e] eqn:Hce; simpl;
      [| |discriminate].
    + intros [= <- <-]. apply check_exit_token in Hce. rewrite Hce. discriminate.
    + destruct (process_token py_exec s1 cur) as [[s2 c2]|e] eqn:Hpt; simpl;
        [|discriminate].
      apply IH. apply process_token_token in Hpt.
      apply check_exit_token in Hce. rewrite Hpt, Hce. discriminate.
Qed.


(** ** [SingleParam] *)

(** Through the constructor, [parse_params] always starts with the token
    attribute assigned (the header colon was read), or does not start. *)

Lemma Syntax_init_token (keyword_name : string) (target_indent : Z)
    (snakefile : option (list Token)) base snakefile' :
  Syntax_init keyword_name target_indent snakefile = Ok (base, snakefile') ->
  snakefile' = None \/ token base <> None.
Proof.
  unfold Syntax_init. destruct (target_indent <? 0); [discriminate|].
  destruct snakefile as [toks|]; [|intros [= <- <-]; now left].
  destruct toks as [|t toks]; simpl; [discriminate|].
  destruct (negb (is_colon t) && _).
  - destruct (negb (TokenType_eqb (type t) NAME)); simpl; [discriminate|].
    destruct toks as [|t' toks]; simpl; [discriminate|].
    destruct (negb (is_colon t')); [discriminate|].
    intros [= <- <-]. right. discriminate.
  - simpl. destruct (negb (is_colon t)); [discriminate|].
    intros [= <- <-]. right. discriminate.
Qed.



(** The same through the constructor, where the header colon has been read
    before the scan starts: no assumption on the token attribute is left. *)
Lemma ParameterSyntax_init_no_parameters py_exec keyword target_indent
    incident_vocab snakefile base toks scanned rest :
  Syntax_init keyword target_indent snakefile = Ok (base, Some toks) ->
  parse_params_loop py_exec
    (set_in_brackets false
       (set_found_newline false
          (mkParameterSyntax base ∅ [] [] false incident_vocab false false)))
    Param_init toks = Ok (scanned, rest) ->
  (num_params scanned = 0 ->
   exists msg,
     ParameterSyntax_init py_exec keyword target_indent incident_vocab
       snakefile = Err (NoParametersError msg))
  /\ (0 < num_params scanned ->
      ParameterSyntax_init py_exec keyword target_indent incident_vocab
        snakefile = Ok (scanned, rest)).
Proof.
  intros Hinit Hloop. unfold ParameterSyntax_init. rewrite Hinit. cbn [rbind].
  destruct (Syntax_init_token _ _ _ _ _ Hinit) as [H|Htok]; [discriminate|].
  unfold parse_params. rewrite Hloop. cbn [rbind].
  pose proof (parse_params_loop_token py_exec toks
                (set_in_brackets false
                   (set_found_newline false
                      (mkParameterSyntax base ∅ [] [] false incident_vocab
                         false false)))
                Param_init scanned rest Htok Hloop) as Hs.
  split.
  - intros Hz. rewrite Hz. simpl. unfold line_nb, get_token.
    destruct (token scanned) as [tok|]; [|contradiction]. simpl.
    eexists. reflexivity.
  - intros Hpos. destruct (num_params scanned =? 0) eqn:E; [|reflexivity].
    apply Z.eqb_eq in E. lia.
Qed.


(** ** Tokens that reach the value branch of [process_token] *)

(** A significant token from the tokenizer is none of the layout kinds and
    no comment. *)
Lemma significant_token_kind (t : Token) :
  not_to_ignore t = true -> tokenize_consistent t = true ->
  type t <> INDENT /\ type t <> DEDENT /\ type t <> NEWLINE /\ type t <> NL
  /\ type t <> COMMENT /\ type t <> ENDMARKER.
Proof.
  unfold not_to_ignore, tokenize_consistent.
  destruct t as [ty s pos]. simpl.
  intros [[Hlen Hsp]%andb_true_iff Hc]%andb_true_iff Hwf.
  apply negb_true_iff in Hsp.
  assert (Hne : String.eqb s "" = false).
  { destruct s; [discriminate Hlen | reflexivity]. }
  destruct ty; simpl in *; try rewrite Hne in Hwf; try rewrite Hsp in Hwf;
    try discriminate; repeat split; discriminate.
Qed.

(** The value branch: what [process_token] does with a token that is none of
    the kinds and separators handled before it. *)
Lemma process_token_value_branch py_exec (self : ParameterSyntax)
    (cur : Param) (tok : Token) :
  token self = Some tok ->
  type tok <> INDENT -> type tok <> DEDENT -> type tok <> NEWLINE ->
  type tok <> NL -> type tok <> COMMENT -> type tok <> ENDMARKER ->
  is_equal_sign tok && negb (in_brackets self) = false ->
  is_comma_sign tok && negb (in_brackets self) = false ->
  process_token py_exec self cur
  = let self' :=
      if brack_close tok then set_in_brackets false self
      else if brack_open tok then set_in_brackets true self else self in
    if (length (split (value cur)) =? 1)%nat
       && incident_vocab self (value cur)
    then
      Err (InvalidParameterSyntax
             (line_nb_at tok +:+ "Over-indented recognised keyword found: '"
              +:+ value cur +:+ "'"))
    else Ok (self', add_elem cur tok).
Proof.
  intros Htok H1 H2 H3 H4 H5 H6 Heq Hcomma.
  apply TokenType_eqb_neq in H1, H2, H3, H4, H5, H6.
  unfold process_token, get_token. rewrite Htok. unfold rbind.
  rewrite H1, H2, H3, H4, H5, H6, Heq, Hcomma. cbn [orb negb].
  destruct (brack_open tok), (brack_close tok); reflexivity.
Qed.

(** C10: a significant token that is neither a comma nor an equals sign,
    processed while the current value is one word that the vocabulary
    recognises, raises [InvalidParameterSyntax], whatever the bracket-nesting
    flag says. *)
Theorem C10_over_indented_check_ignores_bracket_flag :
  forall py_exec (self : ParameterSyntax) (cur : Param) (tok : Token),
    token self = Some tok ->
    not_to_ignore tok = true -> tokenize_consistent tok = true ->
    is_comma_sign tok = false -> is_equal_sign tok = false ->
    length (split (value cur)) = 1%nat ->
    incident_vocab self (value cur) = true ->
    process_token py_exec self cur
    = Err (InvalidParameterSyntax
             (line_nb_at tok +:+ "Over-indented recognised keyword found: '"
              +:+ value cur +:+ "'")).
Proof.
  intros py_exec self cur tok Htok Hsig Hwf Hcomma Heq Hone Hrec.
  destruct (significant_token_kind tok Hsig Hwf)
    as (H1 & H2 & H3 & H4 & H5 & H6).
  rewrite (process_token_value_branch py_exec self cur tok) by
    (try assumption; (rewrite Heq || rewrite Hcomma); reflexivity).
  cbv zeta. rewrite Hone, Hrec. reflexivity.
Qed.


(** ** Running the scan *)

Lemma same_lists_refl (s : ParameterSyntax) : same_lists s s.
Proof. split; reflexivity. Qed.

Lemma same_lists_trans (s1 s2 s3 : ParameterSyntax) :
  same_lists s1 s2 -> same_lists s2 s3 -> same_lists s1 s3.
Proof. intros [H1 H2] [H3 H4]. split; congruence. Qed.

Lemma flush_param_same_lists (s1 s2 : ParameterSyntax) (cur : Param)
    (b : bool) :
  same_lists s1 s2 -> same_lists (flush_param s1 cur b) (flush_param s2 cur b).
Proof.
  intros [Hp Hk]. unfold flush_param, same_lists.
  destruct (negb (has_value cur) && b), (has_key cur); simpl;
    rewrite ?Hp, ?Hk; split; reflexivity.
Qed.

(** While no line end was seen, the exit check lets every token through. *)
Lemma parse_params_loop_step py_exec (self : ParameterSyntax) (cur : Param)
    (tok : Token) (rest : list Token) :
  found_newline self = false ->
  parse_params_loop py_exec self cur (tok :: rest)
  = do '(self', cur') <-
      process_token py_exec (ps_with_base (set_token tok self) self) cur;
    parse_params_loop py_exec self' cur' rest.
Proof. intros H. simpl. unfold check_exit. simpl. rewrite H. reflexivity. Qed.

(** A layout token changes neither the lists nor the current parameter. *)
Lemma process_token_layout py_exec (self : ParameterSyntax) (cur : Param)
    (tok : Token) :
  token self = Some tok -> is_layout tok = true ->
  exists self',
    process_token py_exec self cur = Ok (self', cur) /\ same_lists self' self.
Proof.
  intros Htok Hl.
  assert (Hop : type tok <> OP)
    by (intros H; unfold is_layout in Hl; rewrite H in Hl; discriminate).
  assert (Heq : is_equal_sign tok = false) by now apply is_op_other_type.
  assert (Hcm : is_comma_sign tok = false) by now apply is_op_other_type.
  unfold process_token, get_token. rewrite Htok.
  unfold rbind, is_layout in *. rewrite Heq, Hcm.
  destruct (type tok); try discriminate; cbn [TokenType_eqb orb negb andb];
    eexists; (split; [reflexivity | split; reflexivity]).
Qed.

(** Layout tokens up to the end of the input (or up to the dedent exit, if
    one of them triggers it) end the scan with the lists that a final flush
    of the current parameter gives. *)
Lemma parse_params_loop_layout py_exec (trailer : list Token) :
  forallb is_layout trailer = true ->
  forall (self : ParameterSyntax) (cur : Param),
  exists self' rest,
    parse_params_loop py_exec self cur trailer = Ok (self', rest)
    /\ same_lists self' (flush_param self cur true).
Proof.
  induction trailer as [|t toks IH]; intros Hall self cur.
  - eexists _, _. split; [reflexivity|]. split; reflexivity.
  - simpl in Hall. apply andb_true_iff in Hall as [Ht Hall].
    specialize (IH Hall). simpl.
    set (self1 := ps_with_base (set_token t self) self).
    assert (H1 : same_lists self1 self) by (split; reflexivity).
    unfold check_exit, get_token. change (token self1) with (Some t).
    unfold rbind at 2.
    destruct (found_newline self1 && not_to_ignore t
              && (cur_indent self1 <? target_indent self1)) eqn:Hexit.
    + apply andb_true_iff in Hexit as [[-> ->]%andb_true_iff ->].
      cbn [rbind]. eexists _, _. split; [reflexivity|].
      now apply flush_param_same_lists.
    + assert (Hno : (if found_newline self1
                     then if not_to_ignore t
                          then if cur_indent self1 <? target_indent self1
                               then Ok (true, flush_param self1 cur true)
                               else Ok (false, self1)
                          else Ok (false, self1)
                     else Ok (false, self1)) = Ok (false, self1)).
      { destruct (found_newline self1), (not_to_ignore t),
          (cur_indent self1 <? target_indent self1);
          try reflexivity; discriminate. }
      rewrite Hno. cbn [rbind].
      destruct (process_token_layout py_exec self1 cur t eq_refl Ht)
        as (self2 & Hpt & H2).
      rewrite Hpt. cbn [rbind].
      destruct (IH self2 cur) as (self' & rest & Hrun & H3).
      exists self', rest. split; [exact Hrun|].
      eapply same_lists_trans; [exact H3|].
      apply flush_param_same_lists.
      eapply same_lists_trans; eassumption.
Qed.

(** The header colon alone: [Syntax.__init__] consumes it. *)
Lemma Syntax_init_colon (keyword_name : string) (target_indent : Z)
    (colon : Token) (rest : list Token) :
  0 <= target_indent -> is_colon colon = true ->
  Syntax_init keyword_name target_indent (Some (colon :: rest))
  = Ok (mkSyntax keyword_name target_indent (Z.max (target_indent - 1) 0)
          (Some colon), Some rest).
Proof.
  intros Hpos Hc. unfold Syntax_init.
  replace (target_indent <? 0) with false by (symmetry; apply Z.ltb_ge; lia).
  simpl. rewrite Hc. simpl. rewrite Hc. reflexivity.
Qed.

(** ** Bare values and keyed parameters *)

Lemma bare_value_kind (t : Token) :
  bare_value t = true ->
  (type t = NAME \/ type t = NUMBER \/ type t = STRING) /\ string_ t <> "".
Proof.
  unfold bare_value. intros H. split.
  - destruct (type t); try discriminate; auto.
  - intros Hs. rewrite Hs in H. destruct (type t); discriminate.
Qed.

(** A bare value met while the current parameter has no value yet is taken
    as the start of the value. *)
Lemma process_token_bare_value_fresh py_exec (self : ParameterSyntax)
    (cur : Param) (tok : Token) :
  token self = Some tok -> bare_value tok = true -> value cur = "" ->
  process_token py_exec self cur = Ok (self, add_elem cur tok).
Proof.
  intros Htok [Hk Hs]%bare_value_kind Hv.
  assert (Hop : type tok <> OP) by (destruct Hk as [H|[H|H]]; rewrite H; discriminate).
  rewrite (process_token_value_branch py_exec self cur tok);
    try assumption;
    try (destruct Hk as [H|[H|H]]; rewrite H; discriminate);
    try (unfold is_equal_sign, is_comma_sign;
         rewrite is_op_other_type by assumption; reflexivity).
  cbv zeta. unfold brack_close, brack_open.
  rewrite !is_op_other_type by assumption.
  rewrite Hv. reflexivity.
Qed.

Lemma process_token_equal py_exec (self : ParameterSyntax) (cur : Param)
    (tok : Token) :
  token self = Some tok -> is_equal_sign tok = true ->
  in_brackets self = false ->
  process_token py_exec self cur
  = do cur' <- to_key_val_mode py_exec cur tok; Ok (self, cur').
Proof.
  intros Htok He Hb. pose proof He as [Hty Hs]%is_op_spec.
  unfold process_token, get_token. rewrite Htok. unfold rbind.
  rewrite Hty. cbn [TokenType_eqb orb].
  rewrite He, Hb. reflexivity.
Qed.

Lemma add_elem_fresh (tok : Token) (k : string) (b : bool) :
  add_elem (mkParam k "" [] b 0) tok
  = mkParam k (string_ tok) []
      (if negb (TokenType_eqb (type tok) STRING) then false else b) 0.
Proof. reflexivity. Qed.

(** One positional item: a bare value and the comma that ends it. *)
Lemma scan_positional_item py_exec (self : ParameterSyntax)
    (v comma : Token) (rest : list Token) :
  found_newline self = false -> in_brackets self = false ->
  bare_value v = true -> is_comma_sign comma = true ->
  parse_params_loop py_exec self Param_init (v :: comma :: rest)
  = parse_params_loop py_exec
      (set_positional_params
         (positional_params self ++ [add_elem Param_init v])
         (ps_with_base (set_token comma self) self))
      Param_init rest.
Proof.
  intros Hnl Hbr Hv Hc.
  rewrite parse_params_loop_step by exact Hnl.
  rewrite (process_token_bare_value_fresh py_exec _ _ v) by
    (reflexivity || assumption). cbn [rbind].
  rewrite parse_params_loop_step by exact Hnl.
  rewrite (process_token_comma py_exec _ _ comma) by
    (reflexivity || assumption). cbn [rbind].
  rewrite flush_param_keep. reflexivity.
Qed.

(** The last positional item: a bare value, then only layout. *)
Lemma scan_last_positional_item py_exec (self : ParameterSyntax)
    (v : Token) (trailer : list Token) :
  found_newline self = false -> bare_value v = true ->
  forallb is_layout trailer = true ->
  exists self' rest,
    parse_params_loop py_exec self Param_init (v :: trailer)
    = Ok (self', rest)
    /\ positional_params self'
       = positional_params self ++ [add_elem Param_init v]
    /\ keyword_params self' = keyword_params self.
Proof.
  intros Hnl Hv Htrail. destruct (bare_value_kind v Hv) as [_ Hs].
  rewrite parse_params_loop_step by exact Hnl.
  rewrite (process_token_bare_value_fresh py_exec _ _ v) by
    (reflexivity || assumption). cbn [rbind].
  destruct (parse_params_loop_layout py_exec trailer Htrail
              (ps_with_base (set_token v self) self)
              (add_elem Param_init v)) as (self' & rest & Hrun & Hp & Hk).
  exists self', rest. split; [exact Hrun|].
  unfold flush_param in Hp, Hk.
  assert (Hhv : has_value (add_elem Param_init v) = true)
    by (unfold add_elem, has_value; simpl; now apply str_len_pos).
  rewrite Hhv in Hp, Hk. simpl in Hp, Hk. split; assumption.
Qed.

(** The start of a keyed item: a name whose text [exec] accepts as an
    assignment target, and the equals sign. *)
Lemma scan_key py_exec (self : ParameterSyntax) (k eq : Token)
    (rest : list Token) :
  found_newline self = false -> in_brackets self = false ->
  bare_value k = true -> is_equal_sign eq = true ->
  py_exec (string_ k +:+ " = 0") = ExecReturns ->
  parse_params_loop py_exec self Param_init (k :: eq :: rest)
  = parse_params_loop py_exec (ps_with_base (set_token eq self) self)
      (mkParam (string_ k) "" [] true 0) rest.
Proof.
  intros Hnl Hbr Hk He Hexec. destruct (bare_value_kind k Hk) as [_ Hs].
  rewrite parse_params_loop_step by exact Hnl.
  rewrite (process_token_bare_value_fresh py_exec _ _ k) by
    (reflexivity || assumption). cbn [rbind].
  rewrite parse_params_loop_step by exact Hnl.
  rewrite (process_token_equal py_exec _ _ eq) by
    (reflexivity || assumption).
  unfold to_key_val_mode, has_value, Param_init. rewrite add_elem_fresh.
  cbn [value rbind].
  rewrite (str_len_pos _ Hs), Hexec. reflexivity.
Qed.

(** The value of a keyed item and the comma that ends it. *)
Lemma scan_keyed_value py_exec (self : ParameterSyntax) (k : string)
    (v comma : Token) (rest : list Token) :
  found_newline self = false -> in_brackets self = false ->
  k <> "" -> bare_value v = true -> is_comma_sign comma = true ->
  parse_params_loop py_exec self (mkParam k "" [] true 0)
    (v :: comma :: rest)
  = parse_params_loop py_exec
      (set_keyword_params
         (keyword_params self ++ [add_elem (mkParam k "" [] true 0) v])
         (ps_with_base (set_token comma self) self))
      Param_init rest.
Proof.
  intros Hnl Hbr Hk Hv Hc.
  rewrite parse_params_loop_step by exact Hnl.
  rewrite (process_token_bare_value_fresh py_exec _ _ v) by
    (reflexivity || assumption). cbn [rbind].
  rewrite parse_params_loop_step by exact Hnl.
  rewrite (process_token_comma py_exec _ _ comma) by
    (reflexivity || assumption). cbn [rbind].
  rewrite flush_param_keep. rewrite add_elem_fresh.
  unfold has_key. cbn [key]. rewrite (str_len_pos _ Hk). reflexivity.
Qed.

(** The value of the last keyed item, then only layout. *)
Lemma scan_last_keyed_value py_exec (self : ParameterSyntax) (k : string)
    (v : Token) (trailer : list Token) :
  found_newline self = false -> k <> "" -> bare_value v = true ->
  forallb is_layout trailer = true ->
  exists self' rest,
    parse_params_loop py_exec self (mkParam k "" [] true 0) (v :: trailer)
    = Ok (self', rest)
    /\ positional_params self' = positional_params self
    /\ keyword_params self'
       = keyword_params self ++ [add_elem (mkParam k "" [] true 0) v].
Proof.
  intros Hnl Hk Hv Htrail. destruct (bare_value_kind v Hv) as [_ Hs].
  rewrite parse_params_loop_step by exact Hnl.
  rewrite (process_token_bare_value_fresh py_exec _ _ v) by
    (reflexivity || assumption). cbn [rbind].
  destruct (parse_params_loop_layout py_exec trailer Htrail
              (ps_with_base (set_token v self) self)
              (add_elem (mkParam k "" [] true 0) v))
    as (self' & rest & Hrun & Hp & Hkk).
  exists self', rest. split; [exact Hrun|].
  unfold flush_param in Hp, Hkk. rewrite add_elem_fresh in Hp, Hkk.
  unfold has_value, has_key in Hp, Hkk. cbn [value key] in Hp, Hkk.
  rewrite (str_len_pos _ Hs), (str_len_pos _ Hk) in Hp, Hkk.
  simpl in Hp, Hkk. rewrite add_elem_fresh. split; assumption.
Qed.

Lemma is_tok_bare_value (ty : TokenType) (s : string) (t : Token) :
  is_tok ty s t -> bare_value (mkToken ty s (0, 0)) = true ->
  bare_value t = true.
Proof. intros [Hty Hs]. unfold bare_value. simpl. now rewrite Hty, Hs. Qed.

(** C5: the tokens [a, b, c] (three bare values separated by top-level
    commas, after the header colon and before any layout tokens that end the
    input) give three positional parameters with the three texts in order and
    no keyed parameter; the tokens [x = 1, y = 2] give no positional
    parameter and two keyed ones, with keys [x], [y] and values [1], [2] in
    order.  [exec] is only asked about the two keys, which are valid
    assignment targets. *)
Theorem C5_positional_and_keyed_lists :
  forall py_exec keyword_name target_indent incident_vocab
         (colon comma1 comma2 : Token) (trailer : list Token),
    0 <= target_indent ->
    is_colon colon = true ->
    is_comma_sign comma1 = true -> is_comma_sign comma2 = true ->
    forallb is_layout trailer = true ->
    (forall a b c : Token,
       bare_value a = true -> bare_value b = true -> bare_value c = true ->
       exists self rest,
         ParameterSyntax_init py_exec keyword_name target_indent
           incident_vocab
           (Some (colon :: a :: comma1 :: b :: comma2 :: c :: trailer))
         = Ok (self, rest)
         /\ keys_values (positional_params self)
            = [("", string_ a); ("", string_ b); ("", string_ c)]
         /\ keyword_params self = [])
    /\ (forall x eq1 one y eq2 two : Token,
          py_exec "x = 0" = ExecReturns -> py_exec "y = 0" = ExecReturns ->
          is_tok NAME "x" x -> is_equal_sign eq1 = true ->
          is_tok NUMBER "1" one ->
          is_tok NAME "y" y -> is_equal_sign eq2 = true ->
          is_tok NUMBER "2" two ->
          exists self rest,
            ParameterSyntax_init py_exec keyword_name target_indent
              incident_vocab
              (Some (colon :: x :: eq1 :: one :: comma1
                     :: y :: eq2 :: two :: trailer))
            = Ok (self, rest)
            /\ positional_params self = []
            /\ keys_values (keyword_params self) = [("x", "1"); ("y", "2")]).
Proof.
  intros py_exec keyword_name target_indent incident_vocab colon comma1 comma2
    trailer Hpos Hcolon Hc1 Hc2 Htrail.
  split.
  - intros a b c Ha Hb Hc.
    unfold ParameterSyntax_init. rewrite Syntax_init_colon by assumption.
    cbn [rbind]. unfold parse_params.
    rewrite (scan_positional_item py_exec _ a comma1) by
      (reflexivity || assumption).
    rewrite (scan_positional_item py_exec _ b comma2) by
      (reflexivity || assumption).
    match goal with
    | |- context [parse_params_loop py_exec ?s Param_init (c :: trailer)] =>
        destruct (scan_last_positional_item py_exec s c trailer eq_refl Hc
                    Htrail) as (self' & rest & Hrun & Hp & Hk)
    end.
    rewrite Hrun. cbn [rbind]. simpl in Hp, Hk.
    unfold num_params. rewrite Hp, Hk. simpl.
    exists self', rest. split; [reflexivity|].
    unfold keys_values. rewrite Hp, Hk. split; reflexivity.
  - intros x eq1 one y eq2 two Hex Hey Hx Heq1 Hone Hy Heq2 Htwo.
    pose proof (is_tok_bare_value _ _ _ Hx eq_refl) as Hbx.
    pose proof (is_tok_bare_value _ _ _ Hone eq_refl) as Hb1.
    pose proof (is_tok_bare_value _ _ _ Hy eq_refl) as Hby.
    pose proof (is_tok_bare_value _ _ _ Htwo eq_refl) as Hb2.
    destruct Hx as [_ Hxs], Hy as [_ Hys], Hone as [H1t H1s],
      Htwo as [H2t H2s].
    unfold ParameterSyntax_init. rewrite Syntax_init_colon by assumption.
    cbn [rbind]. unfold parse_params.
    rewrite (scan_key py_exec _ x eq1) by
      (reflexivity || assumption || (rewrite Hxs; exact Hex)).
    rewrite (scan_keyed_value py_exec _ _ one comma1) by
      (reflexivity || assumption || (rewrite Hxs; discriminate)).
    rewrite (scan_key py_exec _ y eq2) by
      (reflexivity || assumption || (rewrite Hys; exact Hey)).
    match goal with
    | |- context [parse_params_loop py_exec ?s ?p (two :: trailer)] =>
        destruct (scan_last_keyed_value py_exec s (string_ y) two trailer
                    eq_refl ltac:(rewrite Hys; discriminate) Hb2 Htrail)
          as (self' & rest & Hrun & Hp & Hk)
    end.
    rewrite Hrun. cbn [rbind]. simpl in Hp, Hk.
    unfold num_params. rewrite Hp, Hk. simpl.
    exists self', rest. split; [reflexivity|].
    unfold keys_values. rewrite Hp, Hk. simpl.
    rewrite Hxs, Hys, H1s, H2s. split; reflexivity.
Qed.

(** ** Commas inside brackets *)










(** ** Block headers *)

Lemma header_identity_nonempty (keyword : string) (name : option Token) :
  keyword <> "" -> header_identity keyword name <> "".
Proof.
  intros Hk. destruct name as [n|]; simpl; [|assumption].
  destruct keyword; [contradiction | discriminate].
Qed.

(** [Syntax.__init__] on a well-formed header consumes the name, if any, and
    the colon. *)
Lemma Syntax_init_header (keyword : string) (target_indent : Z)
    (name : option Token) (colon : Token) (rest : list Token) :
  0 <= target_indent -> is_colon colon = true ->
  match name with
  | Some n => type n = NAME /\ keyword ∈ possibly_named_keywords
  | None => True
  end ->
  Syntax_init keyword target_indent (Some (option_list name ++ colon :: rest))
  = Ok (mkSyntax (header_identity keyword name) target_indent
          (Z.max (target_indent - 1) 0) (Some colon), Some rest).
Proof.
  intros Hpos Hc Hname. destruct name as [n|]; simpl option_list; simpl app.
  - destruct Hname as [Hty Hin]. unfold Syntax_init.
    replace (target_indent <? 0) with false by (symmetry; apply Z.ltb_ge; lia).
    assert (Hn : is_colon n = false)
      by (apply is_op_other_type; rewrite Hty; discriminate).
    cbn [next rbind].
    rewrite Hn, (bool_decide_eq_true_2 _ Hin). cbn [negb andb].
    rewrite Hty. cbn [TokenType_eqb negb rbind]. rewrite Hc. reflexivity.
  - now apply Syntax_init_colon.
Qed.

(** C4 (counterexample): for the header [rule foo:] followed by its line
    end, a block created without a parent context leaves the cursor before
    the line end, and a block created under a parent where [rule foo] is
    already registered raises [DuplicateKeyWordError]. *)
Lemma C4_counterexample_no_parent_and_duplicate :
  (exists self,
     KeywordSyntax_init "rule" 0 None (Some tokens_rule_foo) false
     = Ok (self, None, Some [tk NEWLINE LF 1; tk INDENT TAB 2])
     /\ keyword_name self = "rule foo")
  /\ KeywordSyntax_init "rule" 0 (Some global_with_rule_foo)
       (Some tokens_rule_foo) false
     = Err (DuplicateKeyWordError "L1: 'rule foo' specified twice.").
Proof.
  split.
  - eexists. split; vm_compute; reflexivity.
  - vm_compute. reflexivity.
Qed.

(** C4 (amended): for every well-formed header of a non-empty keyword (an
    optional name when the keyword is nameable, the colon, an optional
    trailing comment, the line end), read from just after the keyword: a
    block created under a parent that has not registered the identity
    resolves the identity to the keyword, or to the keyword, a space and the
    name, registers it with the parent and leaves the cursor just after the
    line end; under a parent that has registered it the constructor raises
    [DuplicateKeyWordError]; without a parent the identity is resolved the
    same way and the cursor is left just after the colon. *)
Theorem C4_block_header_identity_and_cursor :
  forall keyword target_indent accepts_py (name : option Token)
         (colon : Token) (trailing : option Token) (newline : Token)
         (rest : list Token),
    0 <= target_indent -> keyword <> "" ->
    header_well_formed keyword name colon trailing newline ->
    (forall parent : KeywordSyntax,
       header_identity keyword name ∉ processed_keywords parent ->
       exists self parent',
         KeywordSyntax_init keyword target_indent (Some parent)
           (Some (header_tokens name colon trailing newline rest)) accepts_py
         = Ok (self, Some parent', Some rest)
         /\ keyword_name self = header_identity keyword name
         /\ comment self = header_comment trailing
         /\ processed_keywords parent'
            = processed_keywords parent ∪ {[ header_identity keyword name ]})
    /\ (forall parent : KeywordSyntax,
          header_identity keyword name ∈ processed_keywords parent ->
          exists msg,
            KeywordSyntax_init keyword target_indent (Some parent)
              (Some (header_tokens name colon trailing newline rest))
              accepts_py
            = Err (DuplicateKeyWordError msg))
    /\ (exists self,
          KeywordSyntax_init keyword target_indent None
            (Some (header_tokens name colon trailing newline rest)) accepts_py
          = Ok (self, None, Some (option_list trailing ++ newline :: rest))
          /\ keyword_name self = header_identity keyword name).
Proof.
  intros keyword target_indent accepts_py name colon trailing newline rest
    Hpos Hkw (Hcolon & Hname & Htrail & Hnl).
  pose proof (header_identity_nonempty keyword name Hkw) as Hid.
  apply String.eqb_neq in Hid.
  unfold header_tokens, KeywordSyntax_init.
  rewrite Syntax_init_header by assumption. cbn [rbind].
  split; [|split].
  - intros parent Hfresh.
    unfold get_token, add_processed_keyword. cbn [token ks_base rbind keyword_name].
    rewrite Hid, (bool_decide_eq_false_2 _ Hfresh). cbn [rbind].
    destruct trailing as [c|]; simpl option_list; simpl app; cbn [next rbind].
    + do 3 (rewrite ?Htrail, ?Hnl; cbn [TokenType_eqb negb rbind next]).
      eexists _, _. repeat split.
    + do 3 (rewrite ?Hnl; cbn [TokenType_eqb negb rbind next]).
      eexists _, _. repeat split.
  - intros parent Hdup.
    unfold get_token, add_processed_keyword. cbn [token ks_base rbind keyword_name].
    rewrite Hid, (bool_decide_eq_true_2 _ Hdup). cbn [rbind].
    eexists. reflexivity.
  - eexists. split; reflexivity.
Qed.

(** ** The queriable flag *)

Lemma KeywordSyntax_init_queriable keyword target_indent incident_context
    snakefile accepts_py self parent rest :
  KeywordSyntax_init keyword target_indent incident_context snakefile
    accepts_py = Ok (self, parent, rest) ->
  queriable self = true.
Proof.
  unfold KeywordSyntax_init.
  destruct (Syntax_init keyword target_indent snakefile) as [[base sf]|e];
    cbn [rbind]; [|discriminate].
  destruct incident_context as [p|]; [|now intros [= <- <- <-]].
  destruct (get_token _) as [tok|e]; cbn [rbind]; [|discriminate].
  destruct (add_processed_keyword p tok _) as [p'|e]; cbn [rbind];
    [|discriminate].
  destruct (next sf) as [[tok1 sf1]|e]; cbn [rbind]; [|discriminate].
  destruct (TokenType_eqb (type tok1) COMMENT).
  - destruct (next sf1) as [[tok2 sf2]|e]; cbn [rbind]; [|discriminate].
    destruct (negb _); [discriminate|]. now intros [= <- <- <-].
  - cbn [rbind]. destruct (negb _); [discriminate|]. now intros [= <- <- <-].
Qed.

(** A status that is not the end of the input carries a name token, and
    yielding it clears the flag. *)
Lemma get_next_queriable_loop_yield (snakefile : list Token) :
  forall (self : KeywordSyntax) buffer newline st self' rest,
    get_next_queriable_loop self buffer newline snakefile
      = Ok (st, self', rest) ->
    status_eof st = false ->
    type (status_token st) = NAME /\ queriable self' = false.
Proof.
  induction snakefile as [|t toks IH]; intros self buffer newline st self' rest
    Hrun Heof; simpl in Hrun; [discriminate|].
  destruct (type t) eqn:Hty; try (eapply IH; eassumption).
  - inversion Hrun; subst. discriminate.
  - destruct ((cur_indent self <=? target_indent self) && queriable self).
    + inversion Hrun; subst. split; [exact Hty | reflexivity].
    + eapply IH; eassumption.
Qed.

(** The tokens a call consumes end with the token of the status; when the
    call starts with the flag cleared, it yields a name, or leaves with the
    flag set, only if a NEWLINE token is among those before it. *)
Lemma get_next_queriable_loop_newline (snakefile : list Token) :
  forall (self : KeywordSyntax) buffer newline st self' rest,
    get_next_queriable_loop self buffer newline snakefile
      = Ok (st, self', rest) ->
    exists pre,
      snakefile = pre ++ status_token st :: rest
      /\ (queriable self = false ->
          status_eof st = false \/ queriable self' = true ->
          Exists (fun t => type t = NEWLINE) pre).
Proof.
  induction snakefile as [|t toks IH]; intros self buffer newline st self' rest
    Hrun; simpl in Hrun; [discriminate|].
  assert (Hstep : forall (self1 : KeywordSyntax) b n,
             (type t = NEWLINE \/ queriable self1 = queriable self) ->
             get_next_queriable_loop self1 b n toks = Ok (st, self', rest) ->
             exists pre,
               t :: toks = pre ++ status_token st :: rest
               /\ (queriable self = false ->
                   status_eof st = false \/ queriable self' = true ->
                   Exists (fun t => type t = NEWLINE) pre)).
  { intros self1 b n Hq Hrun1.
    destruct (IH self1 b n st self' rest Hrun1) as (pre & -> & Hnl).
    exists (t :: pre). split; [reflexivity|].
    intros Hf Hy. destruct Hq as [Hq|Hq].
    - now apply Exists_cons_hd.
    - apply Exists_cons_tl. apply Hnl; [congruence | exact Hy]. }
  destruct (type t) eqn:Hty;
    try (eapply Hstep; [|exact Hrun]; (now left) || (now right)).
  - (* ENDMARKER *)
    inversion Hrun; subst. exists []. split; [reflexivity|].
    simpl. intros Hf [H|H]; congruence.
  - (* NAME *)
    destruct ((cur_indent self <=? target_indent self) && queriable self)
      eqn:Hcond.
    + inversion Hrun; subst. exists []. split; [reflexivity|].
      apply andb_true_iff in Hcond as [_ Hq]. intros Hf. congruence.
    + eapply Hstep; [|exact Hrun]. now right.
  - (* DEDENT *)
    eapply Hstep; [|exact Hrun]. right.
    destruct (0 <? cur_indent self); reflexivity.
Qed.

(** The buffer only grows: the buffer of the status starts with the buffer
    the loop was entered with. *)
Lemma get_next_queriable_loop_buffer (snakefile : list Token) :
  forall (self : KeywordSyntax) buffer newline st self' rest,
    get_next_queriable_loop self buffer newline snakefile
      = Ok (st, self', rest) ->
    exists suffix, status_buffer st = buffer +:+ suffix.
Proof.
  induction snakefile as [|t toks IH]; intros self buffer newline st self' rest
    Hrun; simpl in Hrun; [discriminate|].
  assert (Hstep : forall (self1 : KeywordSyntax) added n,
             get_next_queriable_loop self1 (buffer +:+ added) n toks
               = Ok (st, self', rest) ->
             exists suffix, status_buffer st = buffer +:+ suffix).
  { intros self1 added n Hrun1.
    destruct (IH self1 _ n st self' rest Hrun1) as (suffix & ->).
    exists (added +:+ suffix). apply str_append_assoc. }
  destruct (type t); try (eapply Hstep; exact Hrun).
  - (* ENDMARKER *)
    inversion Hrun; subst. exists "". simpl.
    symmetry. apply str_append_nil_r.
  - (* NAME *)
    destruct ((cur_indent self <=? target_indent self) && queriable self).
    + inversion Hrun; subst. simpl. destruct newline.
      * eexists. reflexivity.
      * exists "". symmetry. apply str_append_nil_r.
    + destruct newline.
      * apply (Hstep self
                 (str_repeat TAB (cur_indent self) +:+ " " +:+ string_ t)
                 false).
        rewrite <- !str_append_assoc. exact Hrun.
      * apply (Hstep self (" " +:+ string_ t) false).
        rewrite <- !str_append_assoc. exact Hrun.
  - (* INDENT *)
    destruct (IH _ _ _ _ _ _ Hrun) as (suffix & ->). now exists suffix.
Qed.

(** C8: the queriable flag starts true; a name token is yielded only while
    it is true, and yielding clears it; once cleared, a call yields a name
    (or leaves with the flag set) only after consuming a NEWLINE token, so
    two names yielded one after the other are separated by a line end; a name
    token met while the flag is cleared is not yielded: the scan goes on with
    a space and its text appended to the buffer, the token of the status the
    call returns is one of the tokens after it, and the buffer of that status
    starts with the buffer so far, the space and the text of the name. *)
Theorem C8_one_yield_per_logical_line :
  (forall keyword target_indent incident_context snakefile accepts_py self
          parent rest,
     KeywordSyntax_init keyword target_indent incident_context snakefile
       accepts_py = Ok (self, parent, rest) ->
     queriable self = true)
  /\ (forall (self : KeywordSyntax) snakefile st self' rest,
        get_next_queriable self snakefile = Ok (st, self', rest) ->
        status_eof st = false ->
        type (status_token st) = NAME /\ queriable self' = false)
  /\ (forall (self : KeywordSyntax) toks st self' rest,
        queriable self = false ->
        get_next_queriable self (Some toks) = Ok (st, self', rest) ->
        exists pre,
          toks = pre ++ status_token st :: rest
          /\ (status_eof st = false \/ queriable self' = true ->
              Exists (fun t => type t = NEWLINE) pre))
  /\ (forall (self : KeywordSyntax) snakefile st1 self1 rest1 st2 self2 rest2,
        get_next_queriable self snakefile = Ok (st1, self1, rest1) ->
        status_eof st1 = false ->
        get_next_queriable self1 (Some rest1) = Ok (st2, self2, rest2) ->
        status_eof st2 = false ->
        exists pre,
          rest1 = pre ++ status_token st2 :: rest2
          /\ Exists (fun t => type t = NEWLINE) pre)
  /\ (forall (self : KeywordSyntax) buffer newline tok rest,
        queriable self = false -> type tok = NAME ->
        get_next_queriable_loop self buffer newline (tok :: rest)
        = get_next_queriable_loop self
            (((if newline
               then buffer +:+ str_repeat TAB (cur_indent self)
               else buffer) +:+ " ") +:+ string_ tok)
            false rest)
  /\ (forall (self : KeywordSyntax) buffer newline tok rest st self' rest',
        queriable self = false -> type tok = NAME ->
        get_next_queriable_loop self buffer newline (tok :: rest)
        = Ok (st, self', rest') ->
        (exists pre, rest = pre ++ status_token st :: rest')
        /\ exists suffix,
             status_buffer st
             = ((((if newline
                   then buffer +:+ str_repeat TAB (cur_indent self)
                   else buffer) +:+ " ") +:+ string_ tok) +:+ suffix)).
Proof.
  split; [|split; [|split; [|split; [|split]]]].
  - apply KeywordSyntax_init_queriable.
  - intros self [toks|] st self' rest Hrun Heof; [|discriminate].
    eapply get_next_queriable_loop_yield; eassumption.
  - intros self toks st self' rest Hq Hrun.
    destruct (get_next_queriable_loop_newline _ _ _ _ _ _ _ Hrun)
      as (pre & Heq & Hnl).
    exists pre. split; [exact Heq|]. now apply Hnl.
  - intros self [toks|] st1 self1 rest1 st2 self2 rest2 Hrun1 Heof1 Hrun2 Heof2;
      [|discriminate].
    destruct (get_next_queriable_loop_yield _ _ _ _ _ _ _ Hrun1 Heof1)
      as [_ Hq].
    destruct (get_next_queriable_loop_newline _ _ _ _ _ _ _ Hrun2)
      as (pre & Heq & Hnl).
    exists pre. split; [exact Heq|]. apply Hnl; [exact Hq | now left].
  - intros self buffer newline tok rest Hq Hty. simpl.
    rewrite Hty, Hq, andb_false_r. reflexivity.
  - intros self buffer newline tok rest st self' rest' Hq Hty Hrun.
    simpl in Hrun. rewrite Hty, Hq, andb_false_r in Hrun.
    destruct (get_next_queriable_loop_newline _ _ _ _ _ _ _ Hrun)
      as (pre & Heq & _).
    split; [now exists pre|].
    exact (get_next_queriable_loop_buffer _ _ _ _ _ _ _ Hrun).
Qed.

(** ** The theorems at sample inputs *)

(** C3 at a parser that just read a comma with nothing accumulated: the
    comma appends the empty parameter; the end of the input and the dedent
    exit append nothing. *)
Lemma C3_witness :
  (exists self',
     process_token exec_xy parser_at_comma Param_init
     = Ok (self', Param_init)
     /\ positional_params self' = [Param_init]
     /\ keyword_params self' = [])
  /\ parse_params_loop exec_xy parser_at_comma Param_init []
     = Ok (set_eof true parser_at_comma, [])
  /\ parse_params_loop exec_xy parser_at_comma Param_init [tk OP "," 2]
     = Ok (parser_at_comma, []).
Proof.
  destruct (C3_comma_keeps_empty_parameter_end_drops_it exec_xy
              parser_at_comma Param_init (tk OP "," 2) [])
    as (Hcomma & Hend & Hexit).
  split; [|split].
  - destruct (Hcomma eq_refl eq_refl eq_refl) as (self' & Hrun & Hp & Hk).
    exists self'. split; [exact Hrun|]. split; assumption.
  - apply Hend. reflexivity.
  - apply Hexit; reflexivity.
Defined.

(** C4 at [rule foo:] under an empty global context. *)
Lemma C4_witness :
  exists self parent',
    KeywordSyntax_init "rule" 0 (Some global_context) (Some tokens_rule_foo)
      false
    = Ok (self, Some parent', Some [tk INDENT TAB 2])
    /\ keyword_name self = "rule foo"
    /\ comment self = ""
    /\ processed_keywords parent' = ∅ ∪ {[ "rule foo" ]}.
Proof.
  assert (Hwf : header_well_formed "rule" (Some (tk NAME "foo" 1))
                  (tk OP ":" 1) None (tk NEWLINE LF 1)).
  { split; [reflexivity|]. split; [|split; [exact I | reflexivity]].
    split; [reflexivity|]. apply elem_of_union_l, elem_of_singleton.
    reflexivity. }
  destruct (C4_block_header_identity_and_cursor "rule" 0 false
              (Some (tk NAME "foo" 1)) (tk OP ":" 1) None (tk NEWLINE LF 1)
              [tk INDENT TAB 2] (Z.le_refl 0) ltac:(discriminate) Hwf)
    as (Hfresh & _ & _).
  apply (Hfresh global_context). apply not_elem_of_empty.
Defined.

(** C5 at [a, b, c] and [x = 1, y = 2]. *)
Lemma C5_witness :
  (exists self rest,
     ParameterSyntax_init exec_xy "input" 1 empty_vocab (Some tokens_a_b_c)
     = Ok (self, rest)
     /\ keys_values (positional_params self) = [("", "a"); ("", "b"); ("", "c")]
     /\ keyword_params self = [])
  /\ (exists self rest,
        ParameterSyntax_init exec_xy "input" 1 empty_vocab
          (Some tokens_x_1_y_2)
        = Ok (self, rest)
        /\ positional_params self = []
        /\ keys_values (keyword_params self) = [("x", "1"); ("y", "2")]).
Proof.
  destruct (C5_positional_and_keyed_lists exec_xy "input" 1 empty_vocab
              (tk OP ":" 1) (tk OP "," 1) (tk OP "," 1) line_end
              ltac:(discriminate) eq_refl eq_refl eq_refl eq_refl)
    as (Hpos & Hkeyed).
  split.
  - apply (Hpos (tk NAME "a" 1) (tk NAME "b" 1) (tk NAME "c" 1));
      reflexivity.
  - apply (Hkeyed (tk NAME "x" 1) (tk OP "=" 1) (tk NUMBER "1" 1)
             (tk NAME "y" 1) (tk OP "=" 1) (tk NUMBER "2" 1));
      try reflexivity; split; reflexivity.
Defined.



(** C8 at the line [rule foo:]: after [rule] was yielded, [foo] is not, and
    the next name yielded is the [rule] of the following line; the buffer
    returned with it starts with the space and the text [foo]. *)
Lemma C8_witness :
  exists st self' rest pre suffix,
    get_next_queriable global_after_yield (Some tokens_two_rules)
    = Ok (st, self', rest)
    /\ status_token st = tk NAME "rule" 2
    /\ tokens_two_rules = pre ++ status_token st :: rest
    /\ Exists (fun t => type t = NEWLINE) pre
    /\ status_buffer st = (("" +:+ " ") +:+ "foo") +:+ suffix.
Proof.
  destruct C8_one_yield_per_logical_line as (_ & _ & Hnl & _ & _ & Hbuf).
  eexists _, _, _.
  assert (Hrun : get_next_queriable global_after_yield (Some tokens_two_rules)
                 = Ok (mkStatus (tk NAME "rule" 2) 0
                         (" foo:" +:+ LF) false,
                       global_after_yield,
                       [tk NAME "bar" 2; tk OP ":" 2; tk NEWLINE LF 2;
                        tk ENDMARKER "" 3]))
    by (vm_compute; reflexivity).
  destruct (Hnl global_after_yield _ _ _ _ eq_refl Hrun) as (pre & Heq & Hex).
  destruct (Hbuf global_after_yield "" false (tk NAME "foo" 1) _ _ _ _
              eq_refl eq_refl Hrun) as (_ & suffix & Hb).
  exists pre, suffix. split; [exact Hrun|]. split; [reflexivity|].
  split; [exact Heq|]. split; [apply Hex; now left | exact Hb].
Defined.


(** C10 at the name [b] read inside brackets while the value so far is the
    keyword [output]. *)
Lemma C10_witness :
  in_brackets parser_in_brackets = true
  /\ process_token exec_xy parser_in_brackets param_output
     = Err (InvalidParameterSyntax
              "L2: Over-indented recognised keyword found: 'output'").
Proof.
  split; [reflexivity|].
  apply (C10_over_indented_check_ignores_bracket_flag exec_xy
           parser_in_brackets param_output (tk NAME "b" 2));
    reflexivity.
Defined.

(** * Further properties *)

(** ** Token classifiers *)

(** X1: the five operator classifiers are mutually exclusive, and a token
    that one of them accepts is an operator token that [not_to_ignore]
    keeps. *)
Theorem classifiers_exclusive_and_significant :
  forall t : Token,
    (length (List.filter (fun c => c t) operator_classifiers) <= 1)%nat
    /\ (existsb (fun c => c t) operator_classifiers = true ->
        type t = OP /\ not_to_ignore t = true).
Proof.
  intros [ty s pos]. unfold operator_classifiers, is_colon, brack_open,
    brack_close, is_equal_sign, is_comma_sign, is_op, not_to_ignore. simpl.
  destruct (TokenType_eqb ty OP) eqn:Hty; simpl.
  - apply TokenType_eqb_eq in Hty. subst ty.
    destruct (String.eqb_spec s ":"); [subst; simpl; split; [lia|auto]|].
    destruct (String.eqb_spec s "("); [subst; simpl; split; [lia|auto]|].
    destruct (String.eqb_spec s ")"); [subst; simpl; split; [lia|auto]|].
    destruct (String.eqb_spec s "="); [subst; simpl; split; [lia|auto]|].
    destruct (String.eqb_spec s ","); [subst; simpl; split; [lia|auto]|].
    simpl. split; [lia | discriminate].
  - split; [lia | discriminate].
Qed.

(** ** Block headers, the converse and the errors *)

Lemma Syntax_init_shape (keyword : string) (target_indent : Z)
    (toks : list Token) self rest' :
  Syntax_init keyword target_indent (Some toks) = Ok (self, rest') ->
  exists name colon rest,
    toks = option_list name ++ colon :: rest
    /\ is_colon colon = true
    /\ match name with
       | Some n => type n = NAME /\ keyword ∈ possibly_named_keywords
       | None => True
       end
    /\ rest' = Some rest
    /\ self = mkSyntax (header_identity keyword name) target_indent
                (Z.max (target_indent - 1) 0) (Some colon)
    /\ 0 <= target_indent.
Proof.
  unfold Syntax_init.
  destruct (target_indent <? 0) eqn:Hti; [discriminate|].
  apply Z.ltb_ge in Hti.
  destruct toks as [|t toks]; cbn [next rbind]; [discriminate|].
  destruct (is_colon t) eqn:Hc; cbn [negb andb rbind].
  - rewrite Hc. cbn [negb]. intros [= <- <-].
    exists None, t, toks. repeat split; assumption.
  - destruct (bool_decide (keyword ∈ possibly_named_keywords)) eqn:Hin;
      cbn [rbind].
    + apply bool_decide_eq_true_1 in Hin.
      destruct (TokenType_eqb (type t) NAME) eqn:Hty; cbn [negb];
        [|discriminate].
      apply TokenType_eqb_eq in Hty.
      destruct toks as [|t' toks]; cbn [next rbind]; [discriminate|].
      destruct (is_colon t') eqn:Hc'; cbn [negb]; [|discriminate].
      intros [= <- <-]. exists (Some t), t', toks.
      repeat split; assumption.
    + rewrite Hc. cbn [negb]. discriminate.
Qed.

(** X2: a block constructed under a parent returns only on a well-formed
    header: the tokens read are an optional name (only for a nameable
    keyword), the colon, an optional comment and the NEWLINE, the iterator
    is left on what follows, and the new block has the resolved identity, the
    comment of the header line, the depth max(target - 1, 0), no child and
    the queriable flag set. *)
Theorem KeywordSyntax_init_only_on_well_formed_header :
  forall keyword target_indent (parent : KeywordSyntax) toks accepts_py self
         parent' rest',
    KeywordSyntax_init keyword target_indent (Some parent) (Some toks)
      accepts_py = Ok (self, parent', rest') ->
    exists name colon trailing newline rest,
      toks = header_tokens name colon trailing newline rest
      /\ header_well_formed keyword name colon trailing newline
      /\ rest' = Some rest
      /\ self = mkKeywordSyntax
                  (mkSyntax (header_identity keyword name) target_indent
                     (Z.max (target_indent - 1) 0) (Some newline))
                  ∅ accepts_py (header_comment trailing) true
      /\ 0 <= cur_indent self.
Proof.
  intros keyword target_indent parent toks accepts_py self parent' rest'.
  unfold KeywordSyntax_init.
  destruct (Syntax_init keyword target_indent (Some toks)) as [[base sf]|e]
    eqn:Hinit; cbn [rbind]; [|discriminate].
  apply Syntax_init_shape in Hinit
    as (name & colon & rest0 & -> & Hcolon & Hname & -> & -> & Hti).
  unfold get_token. cbn [token ks_base rbind].
  destruct (add_processed_keyword parent colon _) as [p'|e]; cbn [rbind];
    [|discriminate].
  destruct rest0 as [|t1 rest1]; cbn [next rbind]; [discriminate|].
  destruct (TokenType_eqb (type t1) COMMENT) eqn:Hcm.
  - apply TokenType_eqb_eq in Hcm.
    destruct rest1 as [|t2 rest2]; cbn [next rbind]; [discriminate|].
    destruct (TokenType_eqb (type t2) NEWLINE) eqn:Hnl; cbn [negb];
      [|discriminate].
    apply TokenType_eqb_eq in Hnl. intros [= <- <- <-].
    exists name, colon, (Some t1), t2, rest2.
    split; [reflexivity|]. split; [repeat split; assumption|].
    split; [reflexivity|]. split; [reflexivity|]. simpl. lia.
  - cbn [rbind].
    destruct (TokenType_eqb (type t1) NEWLINE) eqn:Hnl; cbn [negb];
      [|discriminate].
    apply TokenType_eqb_eq in Hnl. intros [= <- <- <-].
    exists name, colon, None, t1, rest1.
    split; [reflexivity|]. split; [repeat split; assumption|].
    split; [reflexivity|]. split; [reflexivity|]. simpl. lia.
Qed.

(** X3: what the header parser raises.  A negative target depth fails the
    assertion before any token is read; an exhausted iterator raises
    [StopIteration]; after a nameable keyword, a token that is neither the
    colon nor a name raises [NamedKeywordError]; after any other keyword, a
    token that is not the colon raises [SyntaxError]; and so does a token
    other than the colon after the name. *)
Theorem Syntax_init_errors :
  forall keyword target_indent (tok : Token) (rest : list Token),
    (target_indent < 0 ->
     forall snakefile,
       Syntax_init keyword target_indent snakefile = Err AssertionError)
    /\ (0 <= target_indent ->
        Syntax_init keyword target_indent (Some []) = Err StopIteration)
    /\ (0 <= target_indent -> is_colon tok = false ->
        keyword ∈ possibly_named_keywords -> type tok <> NAME ->
        Syntax_init keyword target_indent (Some (tok :: rest))
        = Err (NamedKeywordError
                 (line_nb_at tok +:+ "Invalid name " +:+ string_ tok
                  +:+ " for '" +:+ keyword +:+ "'")))
    /\ (0 <= target_indent -> is_colon tok = false ->
        keyword ∉ possibly_named_keywords ->
        Syntax_init keyword target_indent (Some (tok :: rest))
        = Err (SyntaxError
                 (line_nb_at tok +:+ "Colon (not '" +:+ string_ tok
                  +:+ "') expected after '" +:+ keyword +:+ "'")))
    /\ (0 <= target_indent -> type tok = NAME ->
        keyword ∈ possibly_named_keywords ->
        forall after, is_colon after = false ->
        Syntax_init keyword target_indent (Some (tok :: after :: rest))
        = Err (SyntaxError
                 (line_nb_at after +:+ "Colon (not '" +:+ string_ after
                  +:+ "') expected after '"
                  +:+ (keyword +:+ " " +:+ string_ tok) +:+ "'"))).
Proof.
  intros keyword target_indent tok rest. unfold Syntax_init.
  split; [|split; [|split; [|split]]].
  - intros Hneg snakefile. apply Z.ltb_lt in Hneg. now rewrite Hneg.
  - intros Hpos. apply Z.ltb_ge in Hpos. now rewrite Hpos.
  - intros Hpos Hc Hin Hty. apply Z.ltb_ge in Hpos. rewrite Hpos.
    cbn [next rbind]. rewrite Hc, (bool_decide_eq_true_2 _ Hin).
    apply TokenType_eqb_neq in Hty. rewrite Hty. reflexivity.
  - intros Hpos Hc Hin. apply Z.ltb_ge in Hpos. rewrite Hpos.
    cbn [next rbind]. rewrite Hc, (bool_decide_eq_false_2 _ Hin).
    cbn [negb andb rbind]. rewrite Hc. reflexivity.
  - intros Hpos Hty Hin after Hc. apply Z.ltb_ge in Hpos. rewrite Hpos.
    assert (Hn : is_colon tok = false)
      by (apply is_op_other_type; rewrite Hty; discriminate).
    cbn [next rbind]. rewrite Hn, (bool_decide_eq_true_2 _ Hin).
    cbn [negb andb]. rewrite Hty. cbn [TokenType_eqb negb next rbind].
    rewrite Hc. reflexivity.
Qed.

(** X4: what the rest of the header line raises.  Once the colon is read and
    the identity registered, the next token must be the NEWLINE or a comment
    followed by the NEWLINE; anything else raises [SyntaxError]. *)
Theorem KeywordSyntax_init_newline_expected :
  forall keyword target_indent (parent : KeywordSyntax) accepts_py
         (name : option Token) (colon t1 t2 : Token) (rest : list Token),
    0 <= target_indent -> keyword <> "" -> is_colon colon = true ->
    match name with
    | Some n => type n = NAME /\ keyword ∈ possibly_named_keywords
    | None => True
    end ->
    header_identity keyword name ∉ processed_keywords parent ->
    (type t1 <> COMMENT -> type t1 <> NEWLINE ->
     KeywordSyntax_init keyword target_indent (Some parent)
       (Some (option_list name ++ colon :: t1 :: rest)) accepts_py
     = Err (SyntaxError
              (line_nb_at t1 +:+ "Newline expected after keyword '"
               +:+ header_identity keyword name +:+ "'")))
    /\ (type t1 = COMMENT -> type t2 <> NEWLINE ->
        KeywordSyntax_init keyword target_indent (Some parent)
          (Some (option_list name ++ colon :: t1 :: t2 :: rest)) accepts_py
        = Err (SyntaxError
                 (line_nb_at t2 +:+ "Newline expected after keyword '"
                  +:+ header_identity keyword name +:+ "'"))).
Proof.
  intros keyword target_indent parent accepts_py name colon t1 t2 rest Hpos
    Hkw Hcolon Hname Hfresh.
  pose proof (header_identity_nonempty keyword name Hkw) as Hid.
  apply String.eqb_neq in Hid.
  unfold KeywordSyntax_init.
  rewrite !Syntax_init_header by assumption. cbn [rbind].
  unfold get_token, add_processed_keyword.
  cbn [token ks_base rbind keyword_name].
  rewrite Hid, (bool_decide_eq_false_2 _ Hfresh). cbn [rbind next].
  split.
  - intros H1 H2. apply TokenType_eqb_neq in H1, H2.
    rewrite H1. cbn [rbind]. rewrite H2. reflexivity.
  - intros H1 H2. apply TokenType_eqb_neq in H2.
    rewrite H1. cbn [TokenType_eqb rbind next]. rewrite H2. reflexivity.
Qed.

(** ** The processed-keyword set *)

(** What a successful registration stores: the identity, or the text of the
    token when the identity is empty. *)
Lemma add_processed_keyword_ok (self : KeywordSyntax) (t : Token)
    (k : string) self' :
  add_processed_keyword self t k = Ok self' ->
  exists stored,
    stored = (if String.eqb k "" then string_ t else k)
    /\ (stored ∉ processed_keywords self)
    /\ processed_keywords self' = processed_keywords self ∪ {[ stored ]}
    /\ ks_base self' = ks_base self.
Proof.
  unfold add_processed_keyword. cbv zeta. intros H. eexists.
  split; [reflexivity|]. revert H.
  destruct (bool_decide _) eqn:Hin; [discriminate|].
  apply bool_decide_eq_false_1 in Hin. intros [= <-].
  split; [exact Hin|]. split; reflexivity.
Qed.

Lemma register_all_grows (children : list (Token * string)) :
  forall (self self' : KeywordSyntax),
    register_all self children = Ok self' ->
    processed_keywords self ⊆ processed_keywords self'
    /\ ks_base self' = ks_base self.
Proof.
  induction children as [|[t k] children IH]; intros self self'; simpl.
  - intros [= <-]. split; [set_solver | reflexivity].
  - destruct (add_processed_keyword self t k) as [s1|e] eqn:Hadd;
      cbn [rbind]; [|discriminate].
    intros Hrest.
    apply add_processed_keyword_ok in Hadd as (stored & _ & _ & Hs & Hb).
    apply IH in Hrest as [Hsub Hb']. split; [|congruence].
    rewrite Hs in Hsub. set_solver.
Qed.

(** X5: an identity can be registered once.  The first registration of an
    identity the block does not hold succeeds and adds exactly that identity;
    after it, and after any further children were registered, registering the
    same identity again raises [DuplicateKeyWordError]. *)
Theorem add_processed_keyword_once :
  forall (self : KeywordSyntax) (t t' : Token) (k : string)
         (others : list (Token * string)),
    k <> "" ->
    k ∉ processed_keywords self ->
    exists self1,
      add_processed_keyword self t k = Ok self1
      /\ processed_keywords self1 = processed_keywords self ∪ {[ k ]}
      /\ forall self2,
           register_all self1 others = Ok self2 ->
           add_processed_keyword self2 t' k
           = Err (DuplicateKeyWordError
                    ("L" +:+ str_of_int (fst (start t')) +:+ ": '" +:+ k
                     +:+ "' specified twice.")).
Proof.
  intros self t t' k others Hk Hfresh. apply String.eqb_neq in Hk.
  unfold add_processed_keyword at 1. rewrite Hk.
  rewrite (bool_decide_eq_false_2 _ Hfresh).
  eexists. split; [reflexivity|]. split; [reflexivity|].
  intros self2 Hall. apply register_all_grows in Hall as [Hsub _].
  unfold add_processed_keyword. rewrite Hk.
  rewrite bool_decide_eq_true_2; [reflexivity|].
  apply Hsub. simpl. set_solver.
Qed.

(** X6: [check_empty] on a block that read its header raises
    [EmptyContextError] while no child is registered, and returns once a
    child is, whatever was registered after it; on a block that never read a
    token (the global context) and has no child, building the message fails
    with [AttributeError] instead. *)
Theorem check_empty_behaviour :
  forall (self : KeywordSyntax),
    (forall tok,
       processed_keywords self = ∅ -> token self = Some tok ->
       check_empty self
       = Err (EmptyContextError
                (line_nb_at tok +:+ keyword_name self
                 +:+ " has no keywords attached to it.")))
    /\ (processed_keywords self = ∅ -> token self = None ->
        check_empty self = Err (AttributeError "token"))
    /\ (forall t k others self1 self2,
          add_processed_keyword self t k = Ok self1 ->
          register_all self1 others = Ok self2 ->
          check_empty self2 = Ok tt).
Proof.
  intros self. unfold check_empty. split; [|split].
  - intros tok Hempty Htok. rewrite Hempty, size_empty.
    rewrite bool_decide_eq_true_2 by reflexivity.
    unfold line_nb, get_token. rewrite Htok. reflexivity.
  - intros Hempty Htok. rewrite Hempty, size_empty.
    rewrite bool_decide_eq_true_2 by reflexivity.
    unfold line_nb, get_token. rewrite Htok. reflexivity.
  - intros t k others self1 self2 Hadd Hall.
    apply add_processed_keyword_ok in Hadd as (stored & _ & _ & Hs & _).
    apply register_all_grows in Hall as [Hsub _].
    rewrite bool_decide_eq_false_2; [reflexivity|].
    apply size_non_empty_iff. rewrite Hs in Hsub. set_solver.
Qed.

(** ** The tracker *)

Lemma get_next_queriable_loop_invariants (snakefile : list Token) :
  forall (self : KeywordSyntax) buffer newline st self' rest,
    0 <= cur_indent self ->
    get_next_queriable_loop self buffer newline snakefile
      = Ok (st, self', rest) ->
    0 <= cur_indent self'
    /\ status_indent st = cur_indent self'
    /\ (status_eof st = false -> cur_indent self' <= target_indent self')
    /\ keyword_name self' = keyword_name self
    /\ target_indent self' = target_indent self
    /\ token self' = token self
    /\ processed_keywords self' = processed_keywords self
    /\ comment self' = comment self
    /\ accepts_python_code self' = accepts_python_code self.
Proof.
  induction snakefile as [|t toks IH];
    intros self buffer newline st self' rest Hpos Hrun;
    simpl in Hrun; [discriminate|].
  destruct (type t);
    try (apply IH in Hrun; [exact Hrun | exact Hpos]).
  - inversion Hrun; subst. simpl.
    split; [assumption|]. split; [reflexivity|].
    split; [intros H; discriminate H|]. repeat split.
  - destruct ((cur_indent self <=? target_indent self) && queriable self)
      eqn:Hc.
    + inversion Hrun; subst. simpl.
      apply andb_true_iff in Hc as [Hle _]. apply Z.leb_le in Hle.
      split; [assumption|]. split; [reflexivity|].
      split; [intros _; exact Hle|]. repeat split.
    + apply IH in Hrun; [exact Hrun | exact Hpos].
  - apply IH in Hrun; [|simpl; lia]. simpl in Hrun. exact Hrun.
  - destruct (0 <? cur_indent self) eqn:E.
    + apply Z.ltb_lt in E. apply IH in Hrun; [|simpl; lia].
      simpl in Hrun. exact Hrun.
    + apply IH in Hrun; [exact Hrun | exact Hpos].
Qed.

(** X7: what [get_next_queriable] keeps.  Starting from a non-negative
    depth, the depth it leaves is non-negative and is the depth the status
    reports; a name is yielded only at a depth at or below the target depth;
    and the call changes nothing but the depth and the queriable flag. *)
Theorem get_next_queriable_invariants :
  forall (snakefile : list Token) (self : KeywordSyntax) st self' rest,
    0 <= cur_indent self ->
    get_next_queriable self (Some snakefile) = Ok (st, self', rest) ->
    0 <= cur_indent self'
    /\ status_indent st = cur_indent self'
    /\ (status_eof st = false -> cur_indent self' <= target_indent self')
    /\ keyword_name self' = keyword_name self
    /\ target_indent self' = target_indent self
    /\ token self' = token self
    /\ processed_keywords self' = processed_keywords self
    /\ comment self' = comment self
    /\ accepts_python_code self' = accepts_python_code self.
Proof.
  intros snakefile self st self' rest Hpos Hrun.
  exact (get_next_queriable_loop_invariants snakefile self "" false st self'
           rest Hpos Hrun).
Qed.

Lemma get_next_queriable_loop_returns (snakefile : list Token) :
  forall (self : KeywordSyntax) buffer newline,
    (Exists (fun t => type t = ENDMARKER) snakefile ->
     exists st self' rest,
       get_next_queriable_loop self buffer newline snakefile
       = Ok (st, self', rest))
    /\ (forall e,
          get_next_queriable_loop self buffer newline snakefile = Err e ->
          e = StopIteration
          /\ Forall (fun t => type t <> ENDMARKER) snakefile).
Proof.
  induction snakefile as [|t toks IH]; intros self buffer newline.
  - split; [intros H; inversion H|].
    intros e [= <-]. split; [reflexivity | constructor].
  - assert (Hstep : forall (self1 : KeywordSyntax) b n,
               type t <> ENDMARKER ->
               (Exists (fun t => type t = ENDMARKER) (t :: toks) ->
                exists st self' rest,
                  get_next_queriable_loop self1 b n toks
                  = Ok (st, self', rest))
               /\ (forall e,
                     get_next_queriable_loop self1 b n toks = Err e ->
                     e = StopIteration
                     /\ Forall (fun t => type t <> ENDMARKER) (t :: toks))).
    { intros self1 b n Hne. destruct (IH self1 b n) as [Hex Herr]. split.
      - intros H. apply Exists_cons in H as [H|H]; [contradiction|].
        now apply Hex.
      - intros e He. apply Herr in He as [-> Hall].
        split; [reflexivity | now constructor]. }
    simpl. destruct (type t) eqn:Hty;
      try (apply Hstep; discriminate).
    + split; [intros _; eexists _, _, _; reflexivity | discriminate].
    + destruct ((cur_indent self <=? target_indent self) && queriable self).
      * split; [intros _; eexists _, _, _; reflexivity | discriminate].
      * apply Hstep. discriminate.
Qed.

(** X8: [get_next_queriable] returns on every stream that still holds an
    ENDMARKER; the only exception it raises on a stream is [StopIteration],
    and only when no ENDMARKER is left. *)
Theorem get_next_queriable_returns_before_end :
  forall (snakefile : list Token) (self : KeywordSyntax),
    (Exists (fun t => type t = ENDMARKER) snakefile ->
     exists st self' rest,
       get_next_queriable self (Some snakefile) = Ok (st, self', rest))
    /\ (forall e,
          get_next_queriable self (Some snakefile) = Err e ->
          e = StopIteration
          /\ Forall (fun t => type t <> ENDMARKER) snakefile).
Proof.
  intros snakefile self.
  exact (get_next_queriable_loop_returns snakefile self "" false).
Qed.

(** ** Accumulating a parameter *)

(** X9: accumulating tokens into a parameter touches only its value and its
    string flag: the key, the comments and [len] stay, the value grows at
    its end, and the parameter is still flagged as a string exactly when it
    was and every token added is a string literal. *)
Theorem add_elems_frame :
  forall (toks : list Token) (p : Param),
    key (add_elems p toks) = key p
    /\ comments (add_elems p toks) = comments p
    /\ len (add_elems p toks) = len p
    /\ is_string (add_elems p toks)
       = is_string p
         && forallb (fun t => TokenType_eqb (type t) STRING) toks
    /\ exists suffix, value (add_elems p toks) = value p +:+ suffix.
Proof.
  unfold add_elems.
  induction toks as [|t toks IH]; intros p; simpl.
  - rewrite andb_true_r. repeat split. exists "".
    symmetry. apply str_append_nil_r.
  - destruct (IH (add_elem p t)) as (Hk & Hc & Hl & Hs & suffix & Hv).
    rewrite Hk, Hc, Hl, Hs. repeat split.
    + unfold add_elem. simpl.
      destruct (TokenType_eqb (type t) STRING); simpl;
        [reflexivity | now rewrite andb_false_r].
    + rewrite Hv. unfold add_elem. simpl.
      destruct ((0 <? str_len (value p)) && TokenType_eqb (type t) NAME).
      * exists (" " +:+ string_ t +:+ suffix).
        now rewrite !str_append_assoc.
      * exists (string_ t +:+ suffix). now rewrite !str_append_assoc.
Qed.

(** ** The scan of the parameter list *)






(** ** Lists without an equals sign *)

Lemma flush_param_positional (self : ParameterSyntax) (cur : Param)
    (b : bool) :
  has_key cur = false -> keyword_params self = [] ->
  positional_ok (positional_params self) ->
  keyword_params (flush_param self cur b) = []
  /\ positional_ok (positional_params (flush_param self cur b)).
Proof.
  intros Hk Hkw Hp. unfold flush_param.
  destruct (negb (has_value cur) && b); [split; assumption|].
  rewrite Hk. simpl. split; [assumption|].
  apply Forall_app. split; [assumption|].
  constructor; [exact Hk | constructor].
Qed.

(** On a token that is not an equals sign [process_token] does not reach
    [to_key_val_mode]: the outcome is the same whatever [exec] does, and the
    parameter gets no key. *)
Lemma process_token_exec_free py_exec py_exec' (self : ParameterSyntax)
    (cur : Param) (tok : Token) :
  token self = Some tok -> is_equal_sign tok = false ->
  process_token py_exec self cur = process_token py_exec' self cur.
Proof.
  intros Htok Heq. unfold process_token, get_token. rewrite Htok.
  cbn [rbind]. rewrite Heq. reflexivity.
Qed.

Lemma process_token_positional py_exec (self : ParameterSyntax)
    (cur : Param) (tok : Token) self' cur' :
  token self = Some tok -> is_equal_sign tok = false ->
  has_key cur = false -> keyword_params self = [] ->
  positional_ok (positional_params self) ->
  process_token py_exec self cur = Ok (self', cur') ->
  has_key cur' = false /\ keyword_params self' = []
  /\ positional_ok (positional_params self').
Proof.
  intros Htok Heq Hk Hkw Hp. unfold process_token, get_token. rewrite Htok.
  cbn [rbind]. rewrite Heq. cbn [andb].
  destruct (TokenType_eqb (type tok) INDENT);
    [intros [= <- <-]; repeat split; assumption|].
  destruct (TokenType_eqb (type tok) DEDENT);
    [intros [= <- <-]; repeat split; assumption|].
  destruct (TokenType_eqb (type tok) NEWLINE || TokenType_eqb (type tok) NL);
    [intros [= <- <-]; repeat split; assumption|].
  destruct (TokenType_eqb (type tok) COMMENT);
    [intros [= <- <-]; repeat split; assumption|].
  destruct (is_comma_sign tok && negb (in_brackets self)).
  { intros [= <- <-]. split; [reflexivity|].
    now apply flush_param_positional. }
  destruct (negb (TokenType_eqb (type tok) ENDMARKER));
    [|intros [= <- <-]; repeat split; assumption].
  destruct (_ && _); [discriminate|].
  intros [= <- <-]. split; [exact Hk|].
  destruct (brack_open tok), (brack_close tok); split; assumption.
Qed.

(** When the exit check lets the token through, it leaves the object as it
    was; when it stops the scan, it has flushed the current parameter. *)
Lemma check_exit_continue (self : ParameterSyntax) (cur : Param) self' :
  check_exit self cur = Ok (false, self') -> self' = self.
Proof.
  unfold check_exit, get_token.
  destruct (found_newline self); [|now intros [= <-]].
  destruct (token self) as [tok|]; cbn [rbind]; [|discriminate].
  destruct (not_to_ignore tok); [|now intros [= <-]].
  destruct (cur_indent self <? target_indent self);
    [discriminate | now intros [= <-]].
Qed.

Lemma check_exit_stop (self : ParameterSyntax) (cur : Param) self' :
  check_exit self cur = Ok (true, self') -> self' = flush_param self cur true.
Proof.
  unfold check_exit, get_token.
  destruct (found_newline self); [|discriminate].
  destruct (token self) as [tok|]; cbn [rbind]; [|discriminate].
  destruct (not_to_ignore tok); [|discriminate].
  destruct (cur_indent self <? target_indent self);
    [now intros [= <-] | discriminate].
Qed.

Lemma no_equal_sign_cons (t : Token) (toks : list Token) :
  no_equal_sign (t :: toks) = true ->
  is_equal_sign t = false /\ no_equal_sign toks = true.
Proof.
  unfold no_equal_sign. cbn [forallb].
  intros [Ht Hne]%andb_prop. split; [|exact Hne].
  now destruct (is_equal_sign t).
Qed.

Lemma no_equal_sign_app (l1 l2 : list Token) :
  no_equal_sign (l1 ++ l2) = true -> no_equal_sign l2 = true.
Proof.
  unfold no_equal_sign. rewrite forallb_app. now intros [_ H]%andb_prop.
Qed.

(** A scan of a stream with no equals sign ends the same way whatever
    [exec] does. *)
Lemma parse_params_loop_exec_free py_exec py_exec' (toks : list Token) :
  forall (self : ParameterSyntax) (cur : Param),
    no_equal_sign toks = true ->
    parse_params_loop py_exec self cur toks
    = parse_params_loop py_exec' self cur toks.
Proof.
  induction toks as [|t toks IH]; intros self cur Hne; [reflexivity|].
  apply no_equal_sign_cons in Hne as [Ht Hne]. cbn [parse_params_loop].
  destruct (check_exit _ cur) as [[[] s1]|e] eqn:Hce; cbn [rbind];
    try reflexivity.
  apply check_exit_continue in Hce. subst s1.
  rewrite (process_token_exec_free py_exec py_exec'
             (ps_with_base (set_token t self) self) cur t eq_refl Ht).
  destruct (process_token py_exec' _ cur) as [[s2 c2]|e]; cbn [rbind];
    [now apply IH | reflexivity].
Qed.

Lemma parse_params_loop_positional py_exec (toks : list Token) :
  forall (self : ParameterSyntax) (cur : Param) self' rest,
    no_equal_sign toks = true -> has_key cur = false ->
    keyword_params self = [] -> positional_ok (positional_params self) ->
    parse_params_loop py_exec self cur toks = Ok (self', rest) ->
    keyword_params self' = [] /\ positional_ok (positional_params self').
Proof.
  induction toks as [|t toks IH]; intros self cur self' rest Hne Hk Hkw Hp.
  - cbn [parse_params_loop]. intros [= <- <-].
    now apply flush_param_positional.
  - apply no_equal_sign_cons in Hne as [Ht Hne]. cbn [parse_params_loop].
    destruct (check_exit _ cur) as [[[] s1]|e] eqn:Hce; cbn [rbind];
      [| |discriminate].
    + intros [= <- <-]. apply check_exit_stop in Hce. subst s1.
      now apply flush_param_positional.
    + apply check_exit_continue in Hce. subst s1.
      destruct (process_token py_exec _ cur) as [[s2 c2]|e] eqn:Hpt;
        cbn [rbind]; [|discriminate].
      apply (process_token_positional py_exec _ cur t) in Hpt
        as (Hk2 & Hkw2 & Hp2); try assumption; try reflexivity.
      intros Hrun. now apply (IH s2 c2 self' rest).
Qed.

Lemma ParameterSyntax_init_exec_free py_exec py_exec' keyword target_indent
    incident_vocab (toks : list Token) :
  no_equal_sign toks = true ->
  ParameterSyntax_init py_exec keyword target_indent incident_vocab
    (Some toks)
  = ParameterSyntax_init py_exec' keyword target_indent incident_vocab
      (Some toks).
Proof.
  intros Hne. unfold ParameterSyntax_init.
  destruct (Syntax_init keyword target_indent (Some toks))
    as [[base sf]|e] eqn:Hinit; cbn [rbind]; [|reflexivity].
  apply Syntax_init_shape in Hinit
    as (name & colon & rest0 & -> & _ & _ & -> & _ & _).
  apply no_equal_sign_app, no_equal_sign_cons in Hne as [_ Hne].
  unfold parse_params.
  now rewrite (parse_params_loop_exec_free py_exec py_exec' rest0).
Qed.

Lemma ParameterSyntax_init_positional py_exec keyword target_indent
    incident_vocab (toks : list Token) self rest :
  no_equal_sign toks = true ->
  ParameterSyntax_init py_exec keyword target_indent incident_vocab
    (Some toks) = Ok (self, rest) ->
  keyword_params self = [] /\ positional_params self <> []
  /\ positional_ok (positional_params self).
Proof.
  intros Hne. unfold ParameterSyntax_init.
  destruct (Syntax_init keyword target_indent (Some toks))
    as [[base sf]|e] eqn:Hinit; cbn [rbind]; [|discriminate].
  apply Syntax_init_shape in Hinit
    as (name & colon & rest0 & -> & _ & _ & -> & _ & _).
  apply no_equal_sign_app, no_equal_sign_cons in Hne as [_ Hne].
  unfold parse_params.
  destruct (parse_params_loop py_exec _ Param_init rest0)
    as [[scanned r]|e] eqn:Hloop; cbn [rbind]; [|discriminate].
  apply parse_params_loop_positional in Hloop as [Hkw Hp];
    [|exact Hne | reflexivity | reflexivity | constructor].
  destruct (num_params scanned =? 0) eqn:Hnum.
  - destruct (line_nb scanned); discriminate.
  - intros [= <- <-]. split; [exact Hkw|]. split; [|exact Hp].
    intros Hnil. apply Z.eqb_neq in Hnum. apply Hnum.
    unfold num_params. now rewrite Hkw, Hnil.
Qed.

(** X12: a parameter list whose tokens include no equals sign is parsed
    without a call of [exec], and every parameter of it is positional: if
    the constructor returns, the keyed list is empty, the positional list is
    not, no positional parameter has a key, and the constructor returns the
    same for any behaviour of [exec]. *)
Theorem no_equal_sign_all_positional :
  forall py_exec keyword target_indent incident_vocab (toks : list Token)
         self rest,
    no_equal_sign toks = true ->
    ParameterSyntax_init py_exec keyword target_indent incident_vocab
      (Some toks) = Ok (self, rest) ->
    keyword_params self = []
    /\ positional_params self <> []
    /\ positional_ok (positional_params self)
    /\ forall py_exec',
         ParameterSyntax_init py_exec' keyword target_indent incident_vocab
           (Some toks) = Ok (self, rest).
Proof.
  intros py_exec keyword target_indent incident_vocab toks self rest Hne
    Hrun.
  destruct (ParameterSyntax_init_positional py_exec keyword target_indent
              incident_vocab toks self rest Hne Hrun) as (Hkw & Hnil & Hp).
  split; [exact Hkw|]. split; [exact Hnil|]. split; [exact Hp|].
  intros py_exec'.
  now rewrite (ParameterSyntax_init_exec_free py_exec' py_exec).
Qed.

(** ** A key after a key *)

Lemma identifier_name_bare (t : Token) :
  identifier_name t = true -> bare_value t = true.
Proof.
  unfold identifier_name, bare_value.
  intros [Hty Hid]%andb_prop.
  destruct (type t); try discriminate.
  now destruct (string_ t).
Qed.

(** The key and the equals sign read while the parameter already has a key
    and no value yet. *)
Lemma scan_rekey py_exec (self : ParameterSyntax) (k0 : string)
    (k eq : Token) (rest : list Token) :
  found_newline self = false -> in_brackets self = false ->
  bare_value k = true -> is_equal_sign eq = true ->
  py_exec (string_ k +:+ " = 0") = ExecReturns ->
  parse_params_loop py_exec self (mkParam k0 "" [] true 0) (k :: eq :: rest)
  = parse_params_loop py_exec (ps_with_base (set_token eq self) self)
      (mkParam (string_ k) "" [] true 0) rest.
Proof.
  intros Hnl Hbr Hk He Hexec. destruct (bare_value_kind k Hk) as [_ Hs].
  rewrite parse_params_loop_step by exact Hnl.
  rewrite (process_token_bare_value_fresh py_exec _ _ k) by
    (reflexivity || assumption). cbn [rbind].
  rewrite parse_params_loop_step by exact Hnl.
  rewrite (process_token_equal py_exec _ _ eq) by
    (reflexivity || assumption).
  unfold to_key_val_mode, has_value. rewrite add_elem_fresh.
  cbn [value rbind].
  rewrite (str_len_pos _ Hs), Hexec. reflexivity.
Qed.

(** X13: a second top-level equals sign in one parameter replaces the key.
    For names [k1] and [k2] whose text is an identifier that [exec] accepts
    as an assignment target (the assignment then only binds a name), and a
    bare value [v], the list [k1 = k2 = v] gives one keyed parameter, with
    key [k2] and value [v]; [k1] is in neither list. *)
Theorem chained_equals_keeps_last_key :
  forall py_exec keyword target_indent incident_vocab
         (colon k1 eq1 k2 eq2 v : Token) (trailer : list Token),
    0 <= target_indent -> is_colon colon = true ->
    identifier_name k1 = true -> is_equal_sign eq1 = true ->
    identifier_name k2 = true -> is_equal_sign eq2 = true ->
    bare_value v = true ->
    py_exec (string_ k1 +:+ " = 0") = ExecReturns ->
    py_exec (string_ k2 +:+ " = 0") = ExecReturns ->
    forallb is_layout trailer = true ->
    exists self rest,
      ParameterSyntax_init py_exec keyword target_indent incident_vocab
        (Some (colon :: k1 :: eq1 :: k2 :: eq2 :: v :: trailer))
      = Ok (self, rest)
      /\ positional_params self = []
      /\ keys_values (keyword_params self) = [(string_ k2, string_ v)].
Proof.
  intros py_exec keyword target_indent incident_vocab colon k1 eq1 k2 eq2 v
    trailer Hpos Hcolon Hk1 Heq1 Hk2 Heq2 Hv Hex1 Hex2 Htrail.
  apply identifier_name_bare in Hk1, Hk2.
  destruct (bare_value_kind k2 Hk2) as [_ Hk2s].
  unfold ParameterSyntax_init. rewrite Syntax_init_colon by assumption.
  cbn [rbind]. unfold parse_params.
  rewrite (scan_key py_exec _ k1 eq1) by (reflexivity || assumption).
  rewrite (scan_rekey py_exec _ _ k2 eq2) by (reflexivity || assumption).
  match goal with
  | |- context [parse_params_loop py_exec ?s ?p (v :: trailer)] =>
      destruct (scan_last_keyed_value py_exec s (string_ k2) v trailer
                  eq_refl Hk2s Hv Htrail)
        as (self' & rest & Hrun & Hp & Hk)
  end.
  rewrite Hrun. cbn [rbind]. simpl in Hp, Hk.
  unfold num_params. rewrite Hp, Hk. simpl.
  exists self', rest. split; [reflexivity|].
  unfold keys_values. rewrite Hp, Hk. split; reflexivity.
Qed.

(** ** Comments *)

Lemma same_param_refl (p : Param) : same_param p p.
Proof. repeat split. Qed.

Lemma same_parse_refl (s : ParameterSyntax) : same_parse s s.
Proof.
  repeat split; apply Forall2_same_length_lookup_2; try reflexivity;
    intros i x y Hx Hy; rewrite Hx in Hy; injection Hy as <-;
    apply same_param_refl.
Qed.

Lemma same_param_has_key (p q : Param) :
  same_param p q -> has_key p = has_key q.
Proof. intros (Hk & _). unfold has_key. now rewrite Hk. Qed.

Lemma same_param_has_value (p q : Param) :
  same_param p q -> has_value p = has_value q.
Proof. intros (_ & Hv & _). unfold has_value. now rewrite Hv. Qed.

Lemma same_parse_set_token (t1 t2 : Token) (s1 s2 : ParameterSyntax) :
  same_parse s1 s2 ->
  same_parse (ps_with_base (set_token t1 s1) s1)
    (ps_with_base (set_token t2 s2) s2).
Proof. intros H. exact H. Qed.

Lemma flush_param_same_parse (s1 s2 : ParameterSyntax) (c1 c2 : Param)
    (b : bool) :
  same_parse s1 s2 -> same_param c1 c2 ->
  same_parse (flush_param s1 c1 b) (flush_param s2 c2 b).
Proof.
  intros Hs Hc. unfold flush_param.
  rewrite (same_param_has_value c1 c2 Hc), (same_param_has_key c1 c2 Hc).
  destruct Hs as (H1 & H2 & H3 & H4 & H5 & H6 & H7 & H8 & H9).
  destruct (negb (has_value c2) && b); [repeat split; assumption|].
  destruct (has_key c2); repeat split; simpl; try assumption.
  - apply Forall2_app; [assumption | now constructor].
  - apply Forall2_app; [assumption | now constructor].
Qed.

Lemma check_exit_same_parse (s1 s2 : ParameterSyntax) (c1 c2 : Param)
    (t : Token) :
  same_parse s1 s2 -> same_param c1 c2 ->
  token s1 = Some t -> token s2 = Some t ->
  exists b s1' s2',
    check_exit s1 c1 = Ok (b, s1') /\ check_exit s2 c2 = Ok (b, s2')
    /\ same_parse s1' s2' /\ token s1' = Some t /\ token s2' = Some t.
Proof.
  intros Hs Hc Ht1 Ht2. unfold check_exit, get_token.
  rewrite Ht1, Ht2. cbn [rbind].
  pose proof Hs as (_ & H2 & H3 & _ & _ & H6 & _).
  rewrite H2, H3, H6.
  destruct (found_newline s2);
    [|exists false, s1, s2; split; [reflexivity|]; split; [reflexivity|];
      split; [exact Hs|]; split; assumption].
  destruct (not_to_ignore t);
    [|exists false, s1, s2; split; [reflexivity|]; split; [reflexivity|];
      split; [exact Hs|]; split; assumption].
  destruct (cur_indent s2 <? target_indent s2);
    [|exists false, s1, s2; split; [reflexivity|]; split; [reflexivity|];
      split; [exact Hs|]; split; assumption].
  exists true, (flush_param s1 c1 true), (flush_param s2 c2 true).
  split; [reflexivity|]. split; [reflexivity|].
  split; [now apply flush_param_same_parse|].
  rewrite !flush_param_token. split; assumption.
Qed.

Lemma add_elem_same_param (c1 c2 : Param) (t : Token) :
  same_param c1 c2 -> same_param (add_elem c1 t) (add_elem c2 t).
Proof.
  intros (Hk & Hv & Hs & Hl). unfold add_elem, same_param. simpl.
  rewrite Hk, Hv, Hs, Hl. repeat split.
Qed.

Lemma process_token_same_parse py_exec (s1 s2 : ParameterSyntax)
    (c1 c2 : Param) (t : Token) :
  same_parse s1 s2 -> same_param c1 c2 ->
  token s1 = Some t -> token s2 = Some t ->
  match process_token py_exec s1 c1, process_token py_exec s2 c2 with
  | Ok (a1, d1), Ok (a2, d2) => same_parse a1 a2 /\ same_param d1 d2
  | Err e1, Err e2 => e1 = e2
  | _, _ => False
  end.
Proof.
  intros Hs Hc Ht1 Ht2. unfold process_token, get_token.
  rewrite Ht1, Ht2. cbn [rbind].
  pose proof Hs as (H1 & H2 & H3 & H4 & H5 & H6 & H7 & H8 & H9).
  pose proof Hc as (Hk & Hv & Hst & Hl).
  destruct (TokenType_eqb (type t) INDENT);
    [split; [|exact Hc]; repeat split; simpl; first [assumption | lia]|].
  destruct (TokenType_eqb (type t) DEDENT);
    [split; [|exact Hc]; repeat split; simpl; first [assumption | lia]|].
  destruct (TokenType_eqb (type t) NEWLINE || TokenType_eqb (type t) NL);
    [split; [|exact Hc]; repeat split; simpl; assumption|].
  destruct (TokenType_eqb (type t) COMMENT);
    [split; [exact Hs|]; repeat split; simpl; assumption|].
  rewrite H7.
  destruct (is_equal_sign t && negb (in_brackets s2)).
  { unfold to_key_val_mode.
    rewrite (same_param_has_value c1 c2 Hc), Hv.
    destruct (has_value c2); cbn [negb rbind]; [|reflexivity].
    destruct (py_exec (value c2 +:+ " = 0")); cbn [rbind];
      try reflexivity.
    split; [exact Hs|]. repeat split; simpl; assumption. }
  destruct (is_comma_sign t && negb (in_brackets s2)).
  { split; [now apply flush_param_same_parse | apply same_param_refl]. }
  destruct (negb (TokenType_eqb (type t) ENDMARKER));
    [|split; assumption].
  rewrite Hv. cbv zeta.
  destruct (brack_open t), (brack_close t);
    cbn [incident_vocab set_in_brackets]; rewrite H5;
    (destruct (_ && _); [reflexivity|]);
    (split; [repeat split; simpl; assumption
            | now apply add_elem_same_param]).
Qed.

(** A comment token never triggers the exit and only adds to the comments
    of the current parameter. *)
Lemma check_exit_comment (self : ParameterSyntax) (cur : Param) (t : Token) :
  token self = Some t -> type t = COMMENT ->
  check_exit self cur = Ok (false, self).
Proof.
  intros Ht Hc. unfold check_exit, get_token, not_to_ignore.
  rewrite Ht. cbn [rbind]. rewrite Hc. cbn [TokenType_eqb negb].
  rewrite andb_false_r. destruct (found_newline self); reflexivity.
Qed.

Lemma process_token_comment py_exec (self : ParameterSyntax) (cur : Param)
    (t : Token) :
  token self = Some t -> type t = COMMENT ->
  process_token py_exec self cur
  = Ok (self,
        mkParam (key cur) (value cur) (comments cur ++ [string_ t])
          (is_string cur) (len cur)).
Proof.
  intros Ht Hc. unfold process_token, get_token.
  rewrite Ht. cbn [rbind]. rewrite Hc. reflexivity.
Qed.

Lemma parse_params_loop_comments py_exec (toks : list Token) :
  forall (s1 s2 : ParameterSyntax) (c1 c2 : Param),
    same_parse s1 s2 -> same_param c1 c2 ->
    same_outcome (parse_params_loop py_exec s1 c1 toks)
      (parse_params_loop py_exec s2 c2 (strip_comments toks)).
Proof.
  induction toks as [|t toks IH]; intros s1 s2 c1 c2 Hs Hc.
  - simpl. split; [|reflexivity].
    pose proof (flush_param_same_parse s1 s2 c1 c2 true Hs Hc)
      as (H1 & H2 & H3 & H4 & H5 & H6 & H7 & H8 & H9).
    repeat split; simpl; assumption.
  - simpl strip_comments.
    destruct (TokenType_eqb (type t) COMMENT) eqn:Hcm; cbn [negb].
    + (* a comment: only the left scan reads it *)
      apply TokenType_eqb_eq in Hcm. cbn [parse_params_loop].
      rewrite (check_exit_comment (ps_with_base (set_token t s1) s1) c1 t
                 eq_refl Hcm). cbn [rbind].
      rewrite (process_token_comment py_exec
                 (ps_with_base (set_token t s1) s1) c1 t eq_refl Hcm).
      cbn [rbind].
      apply IH; [exact Hs|].
      destruct Hc as (Hk & Hv & Hst & Hl). repeat split; assumption.
    + (* any other token: both scans read it *)
      cbn [parse_params_loop].
      destruct (check_exit_same_parse
                  (ps_with_base (set_token t s1) s1)
                  (ps_with_base (set_token t s2) s2) c1 c2 t Hs Hc eq_refl
                  eq_refl) as (b & s1' & s2' & He1 & He2 & Hs' & Ht1 & Ht2).
      rewrite He1, He2. cbn [rbind].
      destruct b; [split; [exact Hs' | reflexivity]|].
      pose proof (process_token_same_parse py_exec s1' s2' c1 c2 t Hs' Hc
                    Ht1 Ht2) as Hpt.
      destruct (process_token py_exec s1' c1) as [[a1 d1]|e1],
        (process_token py_exec s2' c2) as [[a2 d2]|e2]; cbn [rbind];
        try contradiction.
      * destruct Hpt as [Ha Hd]. now apply IH.
      * exact Hpt.
Qed.

(** X14: comments do not change what is parsed.  For a token stream with
    no equals sign, a scan of the stream and a scan of the same stream
    without its comment tokens end the same way, whatever [exec] does in
    either: both raise the same exception, or both return, with parameter
    lists that agree in every key, value and string flag, with the same
    depth, the same flags, and the same tokens left apart from comments. *)
Theorem parse_params_loop_ignores_comments :
  forall py_exec py_exec' (toks : list Token) (self : ParameterSyntax)
         (cur : Param),
    no_equal_sign toks = true ->
    same_outcome (parse_params_loop py_exec self cur toks)
      (parse_params_loop py_exec' self cur (strip_comments toks)).
Proof.
  intros py_exec py_exec' toks self cur Hne.
  rewrite (parse_params_loop_exec_free py_exec py_exec' toks self cur Hne).
  apply parse_params_loop_comments;
    [apply same_parse_refl | apply same_param_refl].
Qed.

(** ** The further properties at sample inputs *)

(** X1 at a comma. *)
Lemma classifiers_witness :
  type (tk OP "," 1) = OP /\ not_to_ignore (tk OP "," 1) = true.
Proof.
  apply (proj2 (classifiers_exclusive_and_significant (tk OP "," 1))).
  reflexivity.
Defined.

(** X2 at [rule foo:  # first] under the empty global context. *)
Lemma KeywordSyntax_init_header_witness :
  exists name colon trailing newline rest,
    tokens_rule_foo_comment = header_tokens name colon trailing newline rest
    /\ header_well_formed "rule" name colon trailing newline
    /\ Some [tk INDENT TAB 2] = Some rest
    /\ block_rule_foo_comment
       = mkKeywordSyntax
           (mkSyntax (header_identity "rule" name) 1 (Z.max (1 - 1) 0)
              (Some newline))
           ∅ false (header_comment trailing) true
    /\ 0 <= cur_indent block_rule_foo_comment.
Proof.
  apply (KeywordSyntax_init_only_on_well_formed_header "rule" 1
           global_context tokens_rule_foo_comment false
           block_rule_foo_comment
           (Some (set_processed_keywords (∅ ∪ {[ "rule foo" ]})
                    global_context))
           (Some [tk INDENT TAB 2])).
  reflexivity.
Defined.

(** X3 at [rule = ...], [input = ...] and [rule foo = ...]. *)
Lemma Syntax_init_errors_witness :
  Syntax_init "rule" (-1) (Some tokens_rule_foo) = Err AssertionError
  /\ Syntax_init "rule" 1 (Some [tk OP "=" 1])
     = Err (NamedKeywordError "L1: Invalid name = for 'rule'")
  /\ Syntax_init "input" 1 (Some [tk OP "=" 1])
     = Err (SyntaxError "L1: Colon (not '=') expected after 'input'")
  /\ Syntax_init "rule" 1 (Some [tk NAME "foo" 1; tk OP "=" 1])
     = Err (SyntaxError "L1: Colon (not '=') expected after 'rule foo'").
Proof.
  assert (Hrule : "rule" ∈ possibly_named_keywords)
    by (apply elem_of_union_l, elem_of_singleton; reflexivity).
  assert (Hinput : "input" ∉ possibly_named_keywords).
  { unfold possibly_named_keywords. set_solver. }
  split; [|split; [|split]].
  - apply (proj1 (Syntax_init_errors "rule" (-1) (tk OP "=" 1) [])). lia.
  - apply (proj1 (proj2 (proj2
             (Syntax_init_errors "rule" 1 (tk OP "=" 1) []))));
      [lia | reflexivity | exact Hrule | cbn; discriminate].
  - apply (proj1 (proj2 (proj2 (proj2
             (Syntax_init_errors "input" 1 (tk OP "=" 1) [])))));
      [lia | reflexivity | exact Hinput].
  - apply (proj2 (proj2 (proj2 (proj2
             (Syntax_init_errors "rule" 1 (tk NAME "foo" 1) [])))));
      [lia | reflexivity | exact Hrule | reflexivity].
Defined.

(** X4 at [rule foo: x] and [rule foo: # first x]. *)
Lemma KeywordSyntax_init_newline_witness :
  KeywordSyntax_init "rule" 1 (Some global_context)
    (Some [tk NAME "foo" 1; tk OP ":" 1; tk NAME "x" 1]) false
  = Err (SyntaxError "L1: Newline expected after keyword 'rule foo'")
  /\ KeywordSyntax_init "rule" 1 (Some global_context)
       (Some [tk NAME "foo" 1; tk OP ":" 1; tk COMMENT "# first" 1;
              tk NAME "x" 2]) false
     = Err (SyntaxError "L2: Newline expected after keyword 'rule foo'").
Proof.
  assert (Hrule : "rule" ∈ possibly_named_keywords)
    by (apply elem_of_union_l, elem_of_singleton; reflexivity).
  assert (Hwf : type (tk NAME "foo" 1) = NAME
                /\ "rule" ∈ possibly_named_keywords)
    by (split; [reflexivity | exact Hrule]).
  split.
  - apply (proj1 (KeywordSyntax_init_newline_expected "rule" 1
                    global_context false (Some (tk NAME "foo" 1))
                    (tk OP ":" 1) (tk NAME "x" 1) (tk NAME "x" 1) []
                    ltac:(lia) ltac:(discriminate) eq_refl Hwf
                    (not_elem_of_empty _)));
      cbn; discriminate.
  - apply (proj2 (KeywordSyntax_init_newline_expected "rule" 1
                    global_context false (Some (tk NAME "foo" 1))
                    (tk OP ":" 1) (tk COMMENT "# first" 1) (tk NAME "x" 2) []
                    ltac:(lia) ltac:(discriminate) eq_refl Hwf
                    (not_elem_of_empty _)));
      [reflexivity | cbn; discriminate].
Defined.

(** X5 at [rule foo] registered twice under the global context, with
    [rule bar] in between. *)
Lemma add_processed_keyword_once_witness :
  exists self1,
    add_processed_keyword global_context (tk OP ":" 1) "rule foo" = Ok self1
    /\ processed_keywords self1 = ∅ ∪ {[ "rule foo" ]}
    /\ forall self2,
         register_all self1 [(tk OP ":" 4, "rule bar")] = Ok self2 ->
         add_processed_keyword self2 (tk OP ":" 7) "rule foo"
         = Err (DuplicateKeyWordError "L7: 'rule foo' specified twice.").
Proof.
  apply (add_processed_keyword_once global_context (tk OP ":" 1)
           (tk OP ":" 7) "rule foo" [(tk OP ":" 4, "rule bar")]);
    [discriminate | apply not_elem_of_empty].
Defined.

(** X6 at a block that read its header, at the global context, and at the
    global context after [rule foo] was registered. *)
Lemma check_empty_witness :
  check_empty block_rule_foo
  = Err (EmptyContextError "L1: rule foo has no keywords attached to it.")
  /\ check_empty global_context = Err (AttributeError "token")
  /\ check_empty global_with_rule_foo = Ok tt.
Proof.
  split; [|split].
  - apply (proj1 (check_empty_behaviour block_rule_foo) (tk NEWLINE LF 1));
      reflexivity.
  - apply (proj1 (proj2 (check_empty_behaviour global_context)));
      reflexivity.
  - apply (proj2 (proj2 (check_empty_behaviour global_context))
             (tk OP ":" 1) "rule foo" []
             (set_processed_keywords (∅ ∪ {[ "rule foo" ]}) global_context)).
    + reflexivity.
    + vm_compute. reflexivity.
Defined.

(** X7 at the tracker that yielded [rule] and meets the next [rule]. *)
Lemma get_next_queriable_invariants_witness :
  0 <= cur_indent global_after_yield
  /\ status_indent status_second_rule = cur_indent global_after_yield
  /\ (status_eof status_second_rule = false ->
      cur_indent global_after_yield <= target_indent global_after_yield)
  /\ keyword_name global_after_yield = keyword_name global_after_yield
  /\ target_indent global_after_yield = target_indent global_after_yield
  /\ token global_after_yield = token global_after_yield
  /\ processed_keywords global_after_yield
     = processed_keywords global_after_yield
  /\ comment global_after_yield = comment global_after_yield
  /\ accepts_python_code global_after_yield
     = accepts_python_code global_after_yield.
Proof.
  apply (get_next_queriable_invariants tokens_two_rules global_after_yield
           status_second_rule global_after_yield rest_second_rule).
  - vm_compute. discriminate.
  - vm_compute. reflexivity.
Defined.

(** X8 at a stream that ends with its ENDMARKER. *)
Lemma get_next_queriable_returns_witness :
  exists st self' rest,
    get_next_queriable global_context (Some tokens_two_rules)
    = Ok (st, self', rest).
Proof.
  apply (proj1 (get_next_queriable_returns_before_end tokens_two_rules
                  global_context)).
  do 7 apply Exists_cons_tl. apply Exists_cons_hd. reflexivity.
Defined.



(** X12 at [a, b, c]. *)
Lemma no_equal_sign_all_positional_witness :
  exists self rest,
    no_equal_sign tokens_a_b_c = true
    /\ ParameterSyntax_init exec_xy "input" 1 empty_vocab (Some tokens_a_b_c)
       = Ok (self, rest)
    /\ keyword_params self = []
    /\ positional_params self <> []
    /\ positional_ok (positional_params self)
    /\ forall py_exec',
         ParameterSyntax_init py_exec' "input" 1 empty_vocab
           (Some tokens_a_b_c) = Ok (self, rest).
Proof.
  eexists _, _. split; [reflexivity|].
  split; [vm_compute; reflexivity|].
  apply (no_equal_sign_all_positional exec_xy "input" 1 empty_vocab
           tokens_a_b_c _ []); [reflexivity|].
  vm_compute. reflexivity.
Defined.

(** X13 at [x = y = 1]. *)
Lemma chained_equals_witness :
  exists self rest,
    ParameterSyntax_init exec_xy "input" 1 empty_vocab (Some tokens_x_y_1)
    = Ok (self, rest)
    /\ positional_params self = []
    /\ keys_values (keyword_params self) = [("y", "1")].
Proof.
  apply (chained_equals_keeps_last_key exec_xy "input" 1 empty_vocab
           (tk OP ":" 1) (tk NAME "x" 1) (tk OP "=" 1) (tk NAME "y" 1)
           (tk OP "=" 1) (tk NUMBER "1" 1) line_end);
    first [reflexivity | lia].
Defined.

(** X14 at ['a',  # first] + line break + ['b'  # second]. *)
Lemma parse_params_loop_ignores_comments_witness :
  no_equal_sign tokens_a_comment_b = true
  /\ strip_comments tokens_a_comment_b
     = [tk STRING "'a'" 1; tk OP "," 1; tk NL LF 1; tk STRING "'b'" 2;
        tk NEWLINE LF 2]
  /\ same_outcome
       (parse_params_loop exec_xy parser_after_colon Param_init
          tokens_a_comment_b)
       (parse_params_loop exec_xy parser_after_colon Param_init
          (strip_comments tokens_a_comment_b)).
Proof.
  split; [reflexivity|]. split; [reflexivity|].
  apply (parse_params_loop_ignores_comments exec_xy exec_xy
           tokens_a_comment_b parser_after_colon Param_init).
  reflexivity.
Defined.
